(** * PokeWhoAmI: ingestion pipeline, faceted filter and selection state

    Shallow embedding of [src/app.js] (module [App]) and of the earlier
    revision of the same file kept under [src/unnamed/part_000] (module
    [Part000]), followed by the properties of the specification.

    Conventions of the embedding.
    - JavaScript numbers that hold ids, generations and stages are [Z].
    - A [Set] whose iteration order is never observed is a [gset]; the two
      generation sets of [Part000], whose first inserted element is read
      back with [[...set][0]], are insertion-ordered duplicate-free lists.
    - [null]/[undefined] are [None]; a rejected promise or a thrown
      exception is the [None] result of the [Async] monad.
    - DOM updates (class lists, text contents, progress bar) are omitted:
      they never feed back into [state]. *)

From Stdlib Require Import ZArith QArith Qround Ascii String List Sorting.Sorted Permutation Lia.
From stdpp Require Import base decidable option gmap sets list strings.

Local Open Scope Z_scope.
Local Open Scope string_scope.
Local Open Scope list_scope.

(** ** JavaScript primitives used by the program *)
Module JS.

(** Truthiness of a string ([''] is falsy) and of a number ([0] is falsy). *)
Definition truthyStr (s : string) : bool :=
  match s with EmptyString => false | _ => true end.

Definition truthyNum (n : Z) : bool := negb (n =? 0)%Z.

(** A possibly-[undefined] number in a condition: [Some n] when it is
    truthy. *)
Definition truthyOpt (o : option Z) : option Z :=
  match o with
  | Some n => if truthyNum n then Some n else None
  | None => None
  end.

(** [a || b] on possibly-missing strings. *)
Definition orStr (a : option string) (b : option string) : option string :=
  match a with
  | Some s => if truthyStr s then Some s else b
  | None => b
  end.

(** [String.prototype.toLowerCase], restricted to the ASCII letters. *)
Definition lowerAscii (c : ascii) : ascii :=
  let n := nat_of_ascii c in
  if (Nat.leb 65 n && Nat.leb n 90)%bool then ascii_of_nat (n + 32) else c.

Fixpoint toLowerCase (s : string) : string :=
  match s with
  | EmptyString => EmptyString
  | String c r => String (lowerAscii c) (toLowerCase r)
  end.

(** [hay.includes(needle)]. *)
Definition includes (hay needle : string) : bool :=
  match String.index 0 needle hay with Some _ => true | None => false end.

(** [Set.prototype.has] and [set.size > 0] on an unordered set. *)
Definition has `{Countable A} (s : gset A) (x : A) : bool := bool_decide (x ∈ s).

Definition nonEmpty `{Countable A} (s : gset A) : bool := Nat.ltb 0 (size s).

(** [s.split('/')]. *)
Fixpoint splitAux (sep : ascii) (cur : string) (s : string) : list string :=
  match s with
  | EmptyString => [String.rev cur]
  | String c r =>
      if Ascii.eqb c sep then String.rev cur :: splitAux sep EmptyString r
      else splitAux sep (String c cur) r
  end.

Definition split (sep : ascii) (s : string) : list string := splitAux sep EmptyString s.

(** [parseInt(s)] without radix: leading white space, an optional sign,
    an optional [0x] prefix, then the longest prefix of digits; [None]
    stands for [NaN]. *)
Definition isSpace (c : ascii) : bool :=
  let n := nat_of_ascii c in
  (Nat.eqb n 32 || (Nat.leb 9 n && Nat.leb n 13))%bool.

Fixpoint skipSpaces (s : string) : string :=
  match s with
  | String c r => if isSpace c then skipSpaces r else s
  | EmptyString => s
  end.

Definition digitValue (c : ascii) : option Z :=
  let n := nat_of_ascii c in
  if (Nat.leb 48 n && Nat.leb n 57)%bool then Some (Z.of_nat (n - 48))
  else if (Nat.leb 97 n && Nat.leb n 122)%bool then Some (Z.of_nat (n - 87))
  else if (Nat.leb 65 n && Nat.leb n 90)%bool then Some (Z.of_nat (n - 55))
  else None.

Fixpoint digitsFrom (radix : Z) (acc : option Z) (s : string) : option Z :=
  match s with
  | EmptyString => acc
  | String c r =>
      match digitValue c with
      | Some d =>
          if (d <? radix)%Z
          then digitsFrom radix (Some (radix * default 0%Z acc + d)%Z) r
          else acc
      | None => acc
      end
  end.

Definition parseUnsigned (s : string) : option Z :=
  match s with
  | String "0" (String "x" r) => digitsFrom 16 None r
  | String "0" (String "X" r) => digitsFrom 16 None r
  | _ => digitsFrom 10 None s
  end.

Definition parseInt (s : string) : option Z :=
  match skipSpaces s with
  | String "-" r => Z.opp <$> parseUnsigned r
  | String "+" r => parseUnsigned r
  | t => parseUnsigned t
  end.

End JS.

(** ** The current program: [src/app.js] *)
Module App.

(** *** Data model *)

(** One catalog record, as returned by [fetchPokemonDetails]. *)
Module Pokemon.
Record t := mk {
  id : Z;
  name : string;
  names : gmap string string;
  sprite : string;
  types : list string;
  generation : Z;
  evolutionStage : Z;
  isBaby : bool;
  isLegendary : bool;
  isMythical : bool;
  color : option string
}.
End Pokemon.

(** [state.currentFilters]. *)
Module Filters.
Record t := mk {
  generations : gset Z;
  notGenerations : gset Z;
  types : gset string;
  notTypes : gset string;
  typeCount : gset string;
  notTypeCount : gset string;
  evolutionStages : gset Z;
  notEvolutionStages : gset Z;
  specialCategories : gset string;
  notSpecialCategories : gset string;
  colors : gset string;
  notColors : gset string;
  name : string
}.

Definition empty : t := mk ∅ ∅ ∅ ∅ ∅ ∅ ∅ ∅ ∅ ∅ ∅ ∅ "".

Definition set_generations (x : gset Z) (f : t) : t :=
  mk x (notGenerations f) (types f) (notTypes f) (typeCount f) (notTypeCount f)
     (evolutionStages f) (notEvolutionStages f) (specialCategories f)
     (notSpecialCategories f) (colors f) (notColors f) (name f).
Definition set_notGenerations (x : gset Z) (f : t) : t :=
  mk (generations f) x (types f) (notTypes f) (typeCount f) (notTypeCount f)
     (evolutionStages f) (notEvolutionStages f) (specialCategories f)
     (notSpecialCategories f) (colors f) (notColors f) (name f).
Definition set_types (x : gset string) (f : t) : t :=
  mk (generations f) (notGenerations f) x (notTypes f) (typeCount f) (notTypeCount f)
     (evolutionStages f) (notEvolutionStages f) (specialCategories f)
     (notSpecialCategories f) (colors f) (notColors f) (name f).
Definition set_notTypes (x : gset string) (f : t) : t :=
  mk (generations f) (notGenerations f) (types f) x (typeCount f) (notTypeCount f)
     (evolutionStages f) (notEvolutionStages f) (specialCategories f)
     (notSpecialCategories f) (colors f) (notColors f) (name f).
Definition set_typeCount (x : gset string) (f : t) : t :=
  mk (generations f) (notGenerations f) (types f) (notTypes f) x (notTypeCount f)
     (evolutionStages f) (notEvolutionStages f) (specialCategories f)
     (notSpecialCategories f) (colors f) (notColors f) (name f).
Definition set_notTypeCount (x : gset string) (f : t) : t :=
  mk (generations f) (notGenerations f) (types f) (notTypes f) (typeCount f) x
     (evolutionStages f) (notEvolutionStages f) (specialCategories f)
     (notSpecialCategories f) (colors f) (notColors f) (name f).
Definition set_evolutionStages (x : gset Z) (f : t) : t :=
  mk (generations f) (notGenerations f) (types f) (notTypes f) (typeCount f) (notTypeCount f)
     x (notEvolutionStages f) (specialCategories f)
     (notSpecialCategories f) (colors f) (notColors f) (name f).
Definition set_notEvolutionStages (x : gset Z) (f : t) : t :=
  mk (generations f) (notGenerations f) (types f) (notTypes f) (typeCount f) (notTypeCount f)
     (evolutionStages f) x (specialCategories f)
     (notSpecialCategories f) (colors f) (notColors f) (name f).
Definition set_specialCategories (x : gset string) (f : t) : t :=
  mk (generations f) (notGenerations f) (types f) (notTypes f) (typeCount f) (notTypeCount f)
     (evolutionStages f) (notEvolutionStages f) x
     (notSpecialCategories f) (colors f) (notColors f) (name f).
Definition set_notSpecialCategories (x : gset string) (f : t) : t :=
  mk (generations f) (notGenerations f) (types f) (notTypes f) (typeCount f) (notTypeCount f)
     (evolutionStages f) (notEvolutionStages f) (specialCategories f)
     x (colors f) (notColors f) (name f).
Definition set_colors (x : gset string) (f : t) : t :=
  mk (generations f) (notGenerations f) (types f) (notTypes f) (typeCount f) (notTypeCount f)
     (evolutionStages f) (notEvolutionStages f) (specialCategories f)
     (notSpecialCategories f) x (notColors f) (name f).
Definition set_notColors (x : gset string) (f : t) : t :=
  mk (generations f) (notGenerations f) (types f) (notTypes f) (typeCount f) (notTypeCount f)
     (evolutionStages f) (notEvolutionStages f) (specialCategories f)
     (notSpecialCategories f) (colors f) x (name f).
Definition set_name (x : string) (f : t) : t :=
  mk (generations f) (notGenerations f) (types f) (notTypes f) (typeCount f) (notTypeCount f)
     (evolutionStages f) (notEvolutionStages f) (specialCategories f)
     (notSpecialCategories f) (colors f) (notColors f) x.
End Filters.

(** The closure variable [typeCountState] of the type-count toggle. *)
Inductive TypeCountState := Both | Single | Dual.

(** The global [state] object.  [typeCountState] is not a property of
    [state] in the source but a [let] captured by the toggle's listener;
    it is kept here because the listener reads and writes it. *)
Record State := mkState {
  allPokemon : list Pokemon.t;
  displayedPokemon : list Pokemon.t;
  disabledPokemon : gset Z;
  chosenPokemonId : option Z;
  currentLanguage : string;
  generationMap : gmap string Z;
  currentFilters : Filters.t;
  typeCountState : TypeCountState
}.

Definition state0 : State := mkState [] [] ∅ None "en" ∅ Filters.empty Both.

Definition set_allPokemon (x : list Pokemon.t) (st : State) : State :=
  mkState x (displayedPokemon st) (disabledPokemon st) (chosenPokemonId st)
          (currentLanguage st) (generationMap st) (currentFilters st) (typeCountState st).
Definition set_displayedPokemon (x : list Pokemon.t) (st : State) : State :=
  mkState (allPokemon st) x (disabledPokemon st) (chosenPokemonId st)
          (currentLanguage st) (generationMap st) (currentFilters st) (typeCountState st).
Definition set_disabledPokemon (x : gset Z) (st : State) : State :=
  mkState (allPokemon st) (displayedPokemon st) x (chosenPokemonId st)
          (currentLanguage st) (generationMap st) (currentFilters st) (typeCountState st).
Definition set_chosenPokemonId (x : option Z) (st : State) : State :=
  mkState (allPokemon st) (displayedPokemon st) (disabledPokemon st) x
          (currentLanguage st) (generationMap st) (currentFilters st) (typeCountState st).
Definition set_currentLanguage (x : string) (st : State) : State :=
  mkState (allPokemon st) (displayedPokemon st) (disabledPokemon st) (chosenPokemonId st)
          x (generationMap st) (currentFilters st) (typeCountState st).
Definition set_generationMap (x : gmap string Z) (st : State) : State :=
  mkState (allPokemon st) (displayedPokemon st) (disabledPokemon st) (chosenPokemonId st)
          (currentLanguage st) x (currentFilters st) (typeCountState st).
Definition set_currentFilters (x : Filters.t) (st : State) : State :=
  mkState (allPokemon st) (displayedPokemon st) (disabledPokemon st) (chosenPokemonId st)
          (currentLanguage st) (generationMap st) x (typeCountState st).
Definition set_typeCountState (x : TypeCountState) (st : State) : State :=
  mkState (allPokemon st) (displayedPokemon st) (disabledPokemon st) (chosenPokemonId st)
          (currentLanguage st) (generationMap st) (currentFilters st) x.

(** [state.currentFilters.<field> = ...] seen from the whole state. *)
Definition updFilters (u : Filters.t → Filters.t) (st : State) : State :=
  set_currentFilters (u (currentFilters st)) st.

Definition BATCH_SIZE : nat := 30.
Definition MAX_POKEMON_ID : Z := 1025.

(** *** Filter engine *)

Definition getDisplayName (lang : string) (pokemon : Pokemon.t) : string :=
  match Pokemon.names pokemon !! lang with
  | Some n => if JS.truthyStr n then n else Pokemon.name pokemon
  | None => Pokemon.name pokemon
  end.

(** The predicates handed to [Array.prototype.filter], one per stage. *)
Definition matchesName (lang searchTerm : string) (p : Pokemon.t) : bool :=
  if JS.includes (JS.toLowerCase (getDisplayName lang p)) searchTerm then true
  else if JS.includes (JS.toLowerCase (Pokemon.name p)) searchTerm then true
  else false.

Definition hasAllTypes (sel : gset string) (p : Pokemon.t) : bool :=
  forallb (λ type, bool_decide (type ∈ Pokemon.types p)) (elements sel).

Definition hasSomeType (sel : gset string) (p : Pokemon.t) : bool :=
  existsb (λ type, JS.has sel type) (Pokemon.types p).

Definition typeCountIn (sel : gset string) (p : Pokemon.t) : bool :=
  let typeCount := length (Pokemon.types p) in
  (JS.has sel "single" && Nat.eqb typeCount 1) || (JS.has sel "dual" && Nat.eqb typeCount 2).

Definition typeCountNotIn (sel : gset string) (p : Pokemon.t) : bool :=
  let typeCount := length (Pokemon.types p) in
  negb (JS.has sel "single" && Nat.eqb typeCount 1) && negb (JS.has sel "dual" && Nat.eqb typeCount 2).

Definition specialIn (sel : gset string) (p : Pokemon.t) : bool :=
  if JS.has sel "baby" && Pokemon.isBaby p then true
  else if JS.has sel "legendary" && Pokemon.isLegendary p then true
  else if JS.has sel "mythical" && Pokemon.isMythical p then true
  else false.

Definition specialNotIn (sel : gset string) (p : Pokemon.t) : bool :=
  if JS.has sel "baby" && Pokemon.isBaby p then false
  else if JS.has sel "legendary" && Pokemon.isLegendary p then false
  else if JS.has sel "mythical" && Pokemon.isMythical p then false
  else true.

(** [p.color && colors.has(p.color)] *)
Definition colorIn (sel : gset string) (p : Pokemon.t) : bool :=
  match Pokemon.color p with
  | Some c => JS.truthyStr c && JS.has sel c
  | None => false
  end.

(** [!p.color || !notColors.has(p.color)] *)
Definition colorNotIn (sel : gset string) (p : Pokemon.t) : bool :=
  match Pokemon.color p with
  | Some c => negb (JS.truthyStr c) || negb (JS.has sel c)
  | None => true
  end.

(** [if (cond) filtered = filtered.filter(pred)] *)
Definition stage (cond : bool) (pred : Pokemon.t → bool) (filtered : list Pokemon.t) :=
  if cond then List.filter pred filtered else filtered.

(** The list assigned to [state.displayedPokemon] by [filterPokemon]. *)
Definition filtered (st : State) : list Pokemon.t :=
  let f := currentFilters st in
  let filtered := allPokemon st in
  let filtered := stage (JS.truthyStr (Filters.name f))
    (matchesName (currentLanguage st) (JS.toLowerCase (Filters.name f))) filtered in
  let filtered := stage (JS.nonEmpty (Filters.generations f))
    (λ p, JS.has (Filters.generations f) (Pokemon.generation p)) filtered in
  let filtered := stage (JS.nonEmpty (Filters.notGenerations f))
    (λ p, negb (JS.has (Filters.notGenerations f) (Pokemon.generation p))) filtered in
  let filtered := stage (JS.nonEmpty (Filters.types f))
    (hasAllTypes (Filters.types f)) filtered in
  let filtered := stage (JS.nonEmpty (Filters.notTypes f))
    (λ p, negb (hasSomeType (Filters.notTypes f) p)) filtered in
  let filtered := stage (JS.nonEmpty (Filters.typeCount f))
    (typeCountIn (Filters.typeCount f)) filtered in
  let filtered := stage (JS.nonEmpty (Filters.notTypeCount f))
    (typeCountNotIn (Filters.notTypeCount f)) filtered in
  let filtered := stage (JS.nonEmpty (Filters.evolutionStages f))
    (λ p, JS.has (Filters.evolutionStages f) (Pokemon.evolutionStage p)) filtered in
  let filtered := stage (JS.nonEmpty (Filters.notEvolutionStages f))
    (λ p, negb (JS.has (Filters.notEvolutionStages f) (Pokemon.evolutionStage p))) filtered in
  let filtered := stage (JS.nonEmpty (Filters.specialCategories f))
    (specialIn (Filters.specialCategories f)) filtered in
  let filtered := stage (JS.nonEmpty (Filters.notSpecialCategories f))
    (specialNotIn (Filters.notSpecialCategories f)) filtered in
  let filtered := stage (JS.nonEmpty (Filters.colors f))
    (colorIn (Filters.colors f)) filtered in
  let filtered := stage (JS.nonEmpty (Filters.notColors f))
    (colorNotIn (Filters.notColors f)) filtered in
  filtered.

Definition filterPokemon (st : State) : State :=
  set_displayedPokemon (filtered st) st.

(** *** Selection state *)

Definition togglePokemon (pokemonId : Z) (st : State) : State :=
  if JS.has (disabledPokemon st) pokemonId
  then set_disabledPokemon (disabledPokemon st ∖ {[pokemonId]}) st
  else set_disabledPokemon ({[pokemonId]} ∪ disabledPokemon st) st.

Definition chooseIdentity (pokemonId : Z) (st : State) : State :=
  if bool_decide (chosenPokemonId st = Some pokemonId)
  then set_chosenPokemonId None st
  else set_chosenPokemonId (Some pokemonId) st.

(** [Math.floor(Math.random() * n)], the random number being [rnd]. *)
Definition randomIndex (rnd : Q) (n : nat) : Z :=
  Qfloor (rnd * inject_Z (Z.of_nat n)).

(** [rnd] is the value returned by [Math.random()].  Reading past the
    end of [availablePokemon] would make [randomPokemon.id] throw inside
    the listener, leaving the state as it was. *)
Definition chooseRandomPokemon (rnd : Q) (st : State) : State :=
  let availablePokemon :=
    List.filter (λ pokemon, negb (JS.has (disabledPokemon st) (Pokemon.id pokemon)))
                (displayedPokemon st) in
  if Nat.eqb (length availablePokemon) 0 then st
  else
    let i := randomIndex rnd (length availablePokemon) in
    match (if (0 <=? i)%Z then availablePokemon !! Z.to_nat i else None) with
    | Some randomPokemon => chooseIdentity (Pokemon.id randomPokemon) st
    | None => st
    end.

(** The number [updateRemainingCounter] writes into the counter. *)
Definition remainingCount (st : State) : nat :=
  length (List.filter (λ pokemon, negb (JS.has (disabledPokemon st) (Pokemon.id pokemon)))
                      (displayedPokemon st)).

(** [createPokemonCard]: whether the card's star is shown active, and
    whether its star button carries the [disabled] attribute. *)
Definition isChosen (st : State) (pokemon : Pokemon.t) : bool :=
  bool_decide (chosenPokemonId st = Some (Pokemon.id pokemon)).

Definition shouldDisableStarBtn (st : State) (pokemon : Pokemon.t) : bool :=
  bool_decide (chosenPokemonId st ≠ None) && negb (isChosen st pokemon).

Definition resetAllPokemon (st : State) : State :=
  let st := set_disabledPokemon ∅ st in
  let st := set_chosenPokemonId None st in
  let st := updFilters (Filters.set_generations ∅) st in
  let st := updFilters (Filters.set_notGenerations ∅) st in
  let st := updFilters (Filters.set_types ∅) st in
  let st := updFilters (Filters.set_notTypes ∅) st in
  let st := updFilters (Filters.set_typeCount ∅) st in
  let st := updFilters (Filters.set_notTypeCount ∅) st in
  let st := updFilters (Filters.set_evolutionStages ∅) st in
  let st := updFilters (Filters.set_notEvolutionStages ∅) st in
  let st := updFilters (Filters.set_specialCategories ∅) st in
  let st := updFilters (Filters.set_notSpecialCategories ∅) st in
  let st := updFilters (Filters.set_colors ∅) st in
  let st := updFilters (Filters.set_notColors ∅) st in
  let st := updFilters (Filters.set_name "") st in
  filterPokemon st.

(** *** Listeners installed by [setupEventListeners] *)

(** The body shared by the five tri-state listeners: with [isActive] and
    [isNot] read before any update, the value goes unselected → active →
    not → unselected.  The result is the new (include, exclude) pair. *)
Definition cycle `{Countable A} (v : A) (sel notSel : gset A) : gset A * gset A :=
  let isActive := JS.has sel v in
  let isNot := JS.has notSel v in
  if negb isActive && negb isNot then ({[v]} ∪ sel, notSel)
  else if isActive then (sel ∖ {[v]}, {[v]} ∪ notSel)
  else if isNot then (sel, notSel ∖ {[v]})
  else (sel, notSel).

(** A button of the generation or evolution row: ['all'] or a number. *)
Inductive NumButton := All | Num (n : Z).

Definition clickGeneration (clickedGen : NumButton) (st : State) : State :=
  let f := currentFilters st in
  let st :=
    match clickedGen with
    | All =>
        updFilters (Filters.set_notGenerations ∅) (updFilters (Filters.set_generations ∅) st)
    | Num genNumber =>
        let '(sel, notSel) := cycle genNumber (Filters.generations f) (Filters.notGenerations f) in
        updFilters (Filters.set_notGenerations notSel) (updFilters (Filters.set_generations sel) st)
    end in
  filterPokemon st.

Definition clickType (clickedType : string) (st : State) : State :=
  let f := currentFilters st in
  let st :=
    if String.eqb clickedType "all" then
      updFilters (Filters.set_notTypes ∅) (updFilters (Filters.set_types ∅) st)
    else
      let '(sel, notSel) := cycle clickedType (Filters.types f) (Filters.notTypes f) in
      updFilters (Filters.set_notTypes notSel) (updFilters (Filters.set_types sel) st) in
  filterPokemon st.

Definition clickTypeCount (st : State) : State :=
  let st := updFilters (Filters.set_typeCount ∅) st in
  let st :=
    match typeCountState st with
    | Both =>
        let st := set_typeCountState Single st in
        updFilters (λ f, Filters.set_typeCount ({["single"]} ∪ Filters.typeCount f) f) st
    | Single =>
        let st := set_typeCountState Dual st in
        updFilters (λ f, Filters.set_typeCount ({["dual"]} ∪ Filters.typeCount f) f) st
    | Dual =>
        let st := set_typeCountState Both st in
        updFilters (Filters.set_typeCount ∅) st
    end in
  filterPokemon st.

Definition clickEvolution (clickedStage : NumButton) (st : State) : State :=
  let f := currentFilters st in
  let st :=
    match clickedStage with
    | All =>
        updFilters (Filters.set_notEvolutionStages ∅)
                   (updFilters (Filters.set_evolutionStages ∅) st)
    | Num stageNumber =>
        let '(sel, notSel) :=
          cycle stageNumber (Filters.evolutionStages f) (Filters.notEvolutionStages f) in
        updFilters (Filters.set_notEvolutionStages notSel)
                   (updFilters (Filters.set_evolutionStages sel) st)
    end in
  filterPokemon st.

Definition clickSpecial (clickedCategory : string) (st : State) : State :=
  let f := currentFilters st in
  let '(sel, notSel) :=
    cycle clickedCategory (Filters.specialCategories f) (Filters.notSpecialCategories f) in
  filterPokemon
    (updFilters (Filters.set_notSpecialCategories notSel)
                (updFilters (Filters.set_specialCategories sel) st)).

Definition clickColor (clickedColor : string) (st : State) : State :=
  let f := currentFilters st in
  let '(sel, notSel) := cycle clickedColor (Filters.colors f) (Filters.notColors f) in
  filterPokemon
    (updFilters (Filters.set_notColors notSel) (updFilters (Filters.set_colors sel) st)).

Definition inputName (value : string) (st : State) : State :=
  filterPokemon (updFilters (Filters.set_name value) st).

(** The user actions that reach [state]. *)
Inductive Event :=
| ClickReset
| InputName (value : string)
| ClickGeneration (clickedGen : NumButton)
| ClickType (clickedType : string)
| ClickTypeCount
| ClickEvolution (clickedStage : NumButton)
| ClickSpecial (clickedCategory : string)
| ClickColor (clickedColor : string)
| ClickLanguage (selectedLang : string)
| ClickCard (pokemonId : Z)
| ClickStar (pokemonId : Z)
| ClickClearChosen
| ClickRandom (rnd : Q).

Definition handle (e : Event) (st : State) : State :=
  match e with
  | ClickReset => resetAllPokemon st
  | InputName value => inputName value st
  | ClickGeneration b => clickGeneration b st
  | ClickType t => clickType t st
  | ClickTypeCount => clickTypeCount st
  | ClickEvolution b => clickEvolution b st
  | ClickSpecial c => clickSpecial c st
  | ClickColor c => clickColor c st
  | ClickLanguage l => set_currentLanguage l st
  | ClickCard i => togglePokemon i st
  | ClickStar i => chooseIdentity i st
  | ClickClearChosen => set_chosenPokemonId None st
  | ClickRandom rnd => chooseRandomPokemon rnd st
  end.

(** The state after a sequence of user actions, oldest first. *)
Definition run (es : list Event) (st : State) : State :=
  fold_left (λ st e, handle e st) es st.

(** *** Catalog source *)

(** An entry of [data.results] in the reference-list response. *)
Module PokemonRef.
Record t := mk { name : string; url : string }.
End PokemonRef.

(** The part of a detail response ([/pokemon/<id>]) that is read. *)
Module PokemonData.
Record t := mk {
  id : Z;
  name : string;
  showdown_front_default : option string;
  front_default : option string;
  types : list string;
  species_name : string;
  species_url : string
}.
End PokemonData.

(** The part of a species response ([/pokemon-species/<id>]) that is
    read; [names] pairs [language.name] with [name], [color] is
    [color.name] and [evolves_from_species] is the predecessor's url. *)
Module SpeciesData.
Record t := mk {
  names : list (string * string);
  is_baby : bool;
  is_legendary : bool;
  is_mythical : bool;
  color : option string;
  evolves_from_species : option string
}.
End SpeciesData.

(** What the remote service answers; [None] is a failed [fetch] or a
    body that does not parse. *)
Module Source.
Record t := mk {
  generation : Z → option (list string);
  pokemonList : option (list PokemonRef.t);
  pokemon : string → option PokemonData.t;
  species : string → option SpeciesData.t
}.
End Source.

Inductive Request :=
| GetGeneration (i : Z)
| GetPokemonList
| GetPokemon (url : string)
| GetSpecies (url : string).

(** *** Asynchronous code: state, request log and exceptions *)

Record World := mkWorld { state : State; requests : list Request }.

(** An [async] body: it may update [state], issues requests, and either
    returns a value or throws ([None]). *)
Definition Async (A : Type) : Type := World → option A * World.

Definition ret {A} (a : A) : Async A := λ w, (Some a, w).

Definition throw {A} : Async A := λ w, (None, w).

Definition bind {A B} (m : Async A) (k : A → Async B) : Async B :=
  λ w, match m w with
       | (Some a, w') => k a w'
       | (None, w') => (None, w')
       end.

(** [try { m } catch (error) { h }] *)
Definition tryCatch {A} (m : Async A) (h : Async A) : Async A :=
  λ w, match m w with
       | (Some a, w') => (Some a, w')
       | (None, w') => h w'
       end.

Definition getState : Async State := λ w, (Some (state w), w).

Definition modifyState (u : State → State) : Async unit :=
  λ w, (Some tt, mkWorld (u (state w)) (requests w)).

(** [await fetch(...)] followed by [await response.json()]. *)
Definition request {A} (r : Request) (answer : option A) : Async A :=
  λ w, (answer, mkWorld (state w) (requests w ++ [r])).

#[global] Instance Async_ret : MRet Async := @ret.
#[global] Instance Async_bind : MBind Async := λ A B k m, bind m k.

Fixpoint mapM {A B} (f : A → Async B) (l : list A) : Async (list B) :=
  match l with
  | [] => ret []
  | a :: l => b ← f a; bs ← mapM f l; ret (b :: bs)
  end.

Fixpoint forEachM {A} (f : A → Async unit) (l : list A) : Async unit :=
  match l with
  | [] => ret tt
  | a :: l => f a;; forEachM f l
  end.

(** *** Ingestion *)

Section Ingestion.

Context (src : Source.t).

(** The handlers of the nine generation requests.  The requests are
    issued in the order 1..9; [order] is the order in which the
    responses arrive. *)
Definition generationHandler (i : Z) : Async unit :=
  match Source.generation src i with
  | Some pokemon_species =>
      forEachM (λ species,
        modifyState (λ st, set_generationMap (<[species := i]> (generationMap st)) st))
        pokemon_species
  | None => ret tt
  end.

Definition fetchGenerationMappings (order : list Z) : Async unit :=
  forEachM (λ i, request (GetGeneration i) (Some tt)) (seqZ 1 9);;
  forEachM generationHandler order.

Definition fetchPokemonList : Async (list PokemonRef.t) :=
  data ← request GetPokemonList (Source.pokemonList src);
  ret data.

Definition placeholderSprite : string :=
  "data:image/svg+xml,%3Csvg width=80 height=80%3E%3C/svg%3E".

(** The local variables that the species block of
    [fetchPokemonDetails] assigns. *)
Record Locals := mkLocals {
  evolutionStage : Z;
  names : gmap string string;
  isBaby : bool;
  isLegendary : bool;
  isMythical : bool;
  color : option string
}.

Definition locals0 : Locals := mkLocals 1 ∅ false false false None.

Definition set_evolutionStage (x : Z) (loc : Locals) : Locals :=
  mkLocals x (names loc) (isBaby loc) (isLegendary loc) (isMythical loc) (color loc).

Definition targetLanguages : list string := ["en"; "de"; "es"; "fr"; "ja"; "ko"].

Definition extractNames (entries : list (string * string)) : gmap string string :=
  fold_left (λ (names : gmap string string) '(langCode, n),
               if bool_decide (langCode ∈ targetLanguages)
               then <[langCode := n]> names else names)
            entries ∅.

(** The locals once the species record has been read, before the
    predecessor is looked at. *)
Definition afterSpecies (speciesData : SpeciesData.t) : Locals :=
  mkLocals 1
    (extractNames (SpeciesData.names speciesData))
    (SpeciesData.is_baby speciesData)
    (SpeciesData.is_legendary speciesData)
    (SpeciesData.is_mythical speciesData)
    (match SpeciesData.color speciesData with
     | Some c => if JS.truthyStr c then Some c else None
     | None => None
     end).

(** The inner [try] of [fetchPokemonDetails].  The source assigns the
    locals one by one inside a single [try]; a throw keeps what was
    assigned so far, which is [locals0] when the species request
    fails and [afterSpecies] when the predecessor request fails. *)
Definition speciesBlock (data : PokemonData.t) : Async Locals :=
  tryCatch
    (speciesData ← request (GetSpecies (PokemonData.species_url data))
                           (Source.species src (PokemonData.species_url data));
     let loc := afterSpecies speciesData in
     match SpeciesData.evolves_from_species speciesData with
     | Some prevUrl =>
         tryCatch
           (prevSpeciesData ← request (GetSpecies prevUrl) (Source.species src prevUrl);
            match SpeciesData.evolves_from_species prevSpeciesData with
            | Some _ => ret (set_evolutionStage 3 loc)
            | None => ret (set_evolutionStage 2 loc)
            end)
           (ret loc)
     | None => ret loc
     end)
    (ret locals0).

Definition chooseSprite (data : PokemonData.t) : string :=
  default placeholderSprite
    (JS.orStr (PokemonData.showdown_front_default data)
              (JS.orStr (PokemonData.front_default data) None)).

(** [state.generationMap[name] || 1] *)
Definition generationOf (generationMap : gmap string Z) (speciesName : string) : Z :=
  match generationMap !! speciesName with
  | Some g => if JS.truthyNum g then g else 1
  | None => 1
  end.

Definition fetchPokemonDetails (pokemon : PokemonRef.t) : Async (option Pokemon.t) :=
  tryCatch
    (data ← request (GetPokemon (PokemonRef.url pokemon))
                    (Source.pokemon src (PokemonRef.url pokemon));
     let sprite := chooseSprite data in
     loc ← speciesBlock data;
     st ← getState;
     ret (Some (Pokemon.mk
                  (PokemonData.id data)
                  (PokemonData.name data)
                  (names loc)
                  sprite
                  (PokemonData.types data)
                  (generationOf (generationMap st) (PokemonData.species_name data))
                  (evolutionStage loc)
                  (isBaby loc)
                  (isLegendary loc)
                  (isMythical loc)
                  (color loc))))
    (ret None).

(** The id read off a reference's url:
    [parseInt(urlParts[urlParts.length - 2])]. *)
Definition encodedId (url : string) : option Z :=
  let urlParts := JS.split "/" url in
  if Nat.leb 2 (length urlParts)
  then part ← urlParts !! (length urlParts - 2)%nat; JS.parseInt part
  else None.

(** [pokemonId <= MAX_POKEMON_ID], false for [NaN]. *)
Definition withinMax (pokemon : PokemonRef.t) : bool :=
  match encodedId (PokemonRef.url pokemon) with
  | Some pokemonId => (pokemonId <=? MAX_POKEMON_ID)%Z
  | None => false
  end.

(** [l.slice(i, j)] for [0 <= i <= j]. *)
Definition slice {A} (i j : nat) (l : list A) : list A := take (j - i) (drop i l).

(** The loop [for (let i = 0; i < totalPokemon; i += BATCH_SIZE)];
    [fuel] bounds the number of iterations. *)
Fixpoint createBatches {A} (fuel i : nat) (filteredList : list A) : list (list A) :=
  match fuel with
  | O => []
  | S fuel =>
      if Nat.ltb i (length filteredList)
      then slice i (i + BATCH_SIZE) filteredList
             :: createBatches fuel (i + BATCH_SIZE)%nat filteredList
      else []
  end.

(** The promises of one batch run concurrently under [Promise.all]; here
    they run one after the other, so the request log keeps the requests
    of one reference together.  The records do not depend on the
    interleaving: [fetchPokemonDetails] reads [state.generationMap], which
    no longer changes, and writes nothing. *)
Definition fetchPokemonDetailsBatch (pokemonList : list PokemonRef.t) : Async unit :=
  let filteredList := List.filter withinMax pokemonList in
  let totalPokemon := length filteredList in
  let batches := createBatches totalPokemon 0 filteredList in
  forEachM (λ batch,
    batchResults ← mapM fetchPokemonDetails batch;
    modifyState (λ st, set_allPokemon (allPokemon st ++ omap id batchResults) st))
    batches.

(** [allPokemon.sort((a, b) => a.id - b.id)]: the sort is stable, so
    its result is the one of a stable insertion sort. *)
Fixpoint insertById (p : Pokemon.t) (l : list Pokemon.t) : list Pokemon.t :=
  match l with
  | [] => [p]
  | q :: l' =>
      if (Pokemon.id p <=? Pokemon.id q)%Z then p :: l else q :: insertById p l'
  end.

Definition sortById (l : list Pokemon.t) : list Pokemon.t :=
  fold_right insertById [] l.

(** The part of [setupEventListeners] that writes [state]:
    [localStorage.getItem('selectedLanguage') || 'en']. *)
Definition setupEventListeners (savedLanguage : option string) : Async unit :=
  modifyState (set_currentLanguage (default "en" (JS.orStr savedLanguage None))).

Inductive Outcome := Ready | LoadError.

Definition init (order : list Z) (savedLanguage : option string) : Async Outcome :=
  tryCatch
    (fetchGenerationMappings order;;
     pokemonList ← fetchPokemonList;
     fetchPokemonDetailsBatch pokemonList;;
     modifyState (λ st, set_allPokemon (sortById (allPokemon st)) st);;
     modifyState (λ st, set_displayedPokemon (allPokemon st) st);;
     setupEventListeners savedLanguage;;
     ret Ready)
    (ret LoadError).

(** The page load: [init] on the initial [state]. *)
Definition load (order : list Z) (savedLanguage : option string) : option Outcome * World :=
  init order savedLanguage (mkWorld state0 []).

End Ingestion.

End App.

(** ** The earlier revision: [src/unnamed/part_000]

    It has no species enrichment and only the name, generation and type
    facets, but two mode switches that [src/app.js] no longer has: the
    generation row is single- or multiple-selection, and the type
    inclusion test is OR or AND. *)
Module Part000.

(** A [Set] whose insertion order is observed: the elements in insertion
    order, without duplicates. *)
Module OrdSet.
Definition t := list Z.
Definition has (s : t) (x : Z) : bool := bool_decide (x ∈ s).
Definition add (x : Z) (s : t) : t := if has s x then s else s ++ [x].
Definition delete (x : Z) (s : t) : t := List.filter (λ y, negb (y =? x)%Z) s.
Definition clear : t := [].
Definition size (s : t) : nat := length s.
(** [[...s][0]] *)
Definition first (s : t) : option Z := head s.
End OrdSet.

Module Pokemon.
Record t := mk {
  id : Z;
  name : string;
  sprite : string;
  types : list string;
  generation : Z
}.
End Pokemon.

Inductive GenerationMode := single | multiple.
(** ['or'] and ['and']. *)
Inductive TypeMode := mode_or | mode_and.

Module Filters.
Record t := mk {
  generations : OrdSet.t;
  notGenerations : OrdSet.t;
  generationMode : GenerationMode;
  types : gset string;
  notTypes : gset string;
  typeMode : TypeMode;
  name : string
}.

Definition empty : t := mk [] [] single ∅ ∅ mode_or "".

Definition set_generations (x : OrdSet.t) (f : t) : t :=
  mk x (notGenerations f) (generationMode f) (types f) (notTypes f) (typeMode f) (name f).
Definition set_notGenerations (x : OrdSet.t) (f : t) : t :=
  mk (generations f) x (generationMode f) (types f) (notTypes f) (typeMode f) (name f).
Definition set_generationMode (x : GenerationMode) (f : t) : t :=
  mk (generations f) (notGenerations f) x (types f) (notTypes f) (typeMode f) (name f).
Definition set_types (x : gset string) (f : t) : t :=
  mk (generations f) (notGenerations f) (generationMode f) x (notTypes f) (typeMode f) (name f).
Definition set_notTypes (x : gset string) (f : t) : t :=
  mk (generations f) (notGenerations f) (generationMode f) (types f) x (typeMode f) (name f).
Definition set_typeMode (x : TypeMode) (f : t) : t :=
  mk (generations f) (notGenerations f) (generationMode f) (types f) (notTypes f) x (name f).
Definition set_name (x : string) (f : t) : t :=
  mk (generations f) (notGenerations f) (generationMode f) (types f) (notTypes f) (typeMode f) x.
End Filters.

Record State := mkState {
  allPokemon : list Pokemon.t;
  displayedPokemon : list Pokemon.t;
  disabledPokemon : gset Z;
  chosenPokemonId : option Z;
  generationMap : gmap string Z;
  currentFilters : Filters.t
}.

Definition state0 : State := mkState [] [] ∅ None ∅ Filters.empty.

Definition set_displayedPokemon (x : list Pokemon.t) (st : State) : State :=
  mkState (allPokemon st) x (disabledPokemon st) (chosenPokemonId st)
          (generationMap st) (currentFilters st).
Definition set_disabledPokemon (x : gset Z) (st : State) : State :=
  mkState (allPokemon st) (displayedPokemon st) x (chosenPokemonId st)
          (generationMap st) (currentFilters st).
Definition set_chosenPokemonId (x : option Z) (st : State) : State :=
  mkState (allPokemon st) (displayedPokemon st) (disabledPokemon st) x
          (generationMap st) (currentFilters st).
Definition set_currentFilters (x : Filters.t) (st : State) : State :=
  mkState (allPokemon st) (displayedPokemon st) (disabledPokemon st) (chosenPokemonId st)
          (generationMap st) x.

Definition updFilters (u : Filters.t → Filters.t) (st : State) : State :=
  set_currentFilters (u (currentFilters st)) st.

(** *** Filter engine *)

(** AND mode: [[...types].every(type => p.types.includes(type))] *)
Definition hasAllTypes (sel : gset string) (p : Pokemon.t) : bool :=
  forallb (λ type, bool_decide (type ∈ Pokemon.types p)) (elements sel).

(** OR mode and the exclusion test: [p.types.some(type => set.has(type))] *)
Definition hasSomeType (sel : gset string) (p : Pokemon.t) : bool :=
  existsb (λ type, JS.has sel type) (Pokemon.types p).

Definition stage (cond : bool) (pred : Pokemon.t → bool) (filtered : list Pokemon.t) :=
  if cond then List.filter pred filtered else filtered.

Definition filtered (st : State) : list Pokemon.t :=
  let f := currentFilters st in
  let filtered := allPokemon st in
  let filtered := stage (JS.truthyStr (Filters.name f))
    (λ p, JS.includes (JS.toLowerCase (Pokemon.name p)) (JS.toLowerCase (Filters.name f)))
    filtered in
  let filtered := stage (Nat.ltb 0 (OrdSet.size (Filters.generations f)))
    (λ p, OrdSet.has (Filters.generations f) (Pokemon.generation p)) filtered in
  let filtered := stage (Nat.ltb 0 (OrdSet.size (Filters.notGenerations f)))
    (λ p, negb (OrdSet.has (Filters.notGenerations f) (Pokemon.generation p))) filtered in
  let filtered :=
    if JS.nonEmpty (Filters.types f) then
      match Filters.typeMode f with
      | mode_and => List.filter (hasAllTypes (Filters.types f)) filtered
      | mode_or => List.filter (hasSomeType (Filters.types f)) filtered
      end
    else filtered in
  let filtered := stage (JS.nonEmpty (Filters.notTypes f))
    (λ p, negb (hasSomeType (Filters.notTypes f) p)) filtered in
  filtered.

Definition filterPokemon (st : State) : State :=
  set_displayedPokemon (filtered st) st.

(** *** Listeners *)

(** The generation mode toggle.  Switching to single mode with more than
    one selection keeps [firstGen] under [if (firstGen)], else
    [firstNotGen] under [else if (firstNotGen)]. *)
Definition genModeToggle (st : State) : State :=
  let f := currentFilters st in
  let st :=
    match Filters.generationMode f with
    | single => updFilters (Filters.set_generationMode multiple) st
    | multiple =>
        let st := updFilters (Filters.set_generationMode single) st in
        let totalSelections :=
          (OrdSet.size (Filters.generations f) + OrdSet.size (Filters.notGenerations f))%nat in
        if Nat.ltb 1 totalSelections then
          let firstGen := OrdSet.first (Filters.generations f) in
          let firstNotGen := OrdSet.first (Filters.notGenerations f) in
          let st := updFilters (Filters.set_generations OrdSet.clear) st in
          let st := updFilters (Filters.set_notGenerations OrdSet.clear) st in
          match JS.truthyOpt firstGen, JS.truthyOpt firstNotGen with
          | Some g, _ =>
              updFilters (λ f, Filters.set_generations (OrdSet.add g (Filters.generations f)) f) st
          | None, Some n =>
              updFilters (λ f, Filters.set_notGenerations
                                 (OrdSet.add n (Filters.notGenerations f)) f) st
          | None, None => st
          end
        else st
    end in
  filterPokemon st.

Definition typeModeToggle (st : State) : State :=
  let st :=
    match Filters.typeMode (currentFilters st) with
    | mode_or => updFilters (Filters.set_typeMode mode_and) st
    | mode_and => updFilters (Filters.set_typeMode mode_or) st
    end in
  filterPokemon st.

(** The three-branch cycle on the two generation sets. *)
Definition cycleGen (isActive isNot : bool) (genNumber : Z) (sel notSel : OrdSet.t)
  : OrdSet.t * OrdSet.t :=
  if negb isActive && negb isNot then (OrdSet.add genNumber sel, notSel)
  else if isActive then (OrdSet.delete genNumber sel, OrdSet.add genNumber notSel)
  else if isNot then (sel, OrdSet.delete genNumber notSel)
  else (sel, notSel).

Inductive GenButton := All | Num (n : Z).

Definition clickGeneration (clickedGen : GenButton) (st : State) : State :=
  let f := currentFilters st in
  let st :=
    match clickedGen with
    | All =>
        updFilters (Filters.set_notGenerations OrdSet.clear)
                   (updFilters (Filters.set_generations OrdSet.clear) st)
    | Num genNumber =>
        let isActive := OrdSet.has (Filters.generations f) genNumber in
        let isNot := OrdSet.has (Filters.notGenerations f) genNumber in
        let '(sel, notSel) :=
          match Filters.generationMode f with
          | single => cycleGen isActive isNot genNumber OrdSet.clear OrdSet.clear
          | multiple =>
              cycleGen isActive isNot genNumber (Filters.generations f) (Filters.notGenerations f)
          end in
        updFilters (Filters.set_notGenerations notSel) (updFilters (Filters.set_generations sel) st)
    end in
  filterPokemon st.

Definition clickType (clickedType : string) (st : State) : State :=
  let f := currentFilters st in
  let st :=
    if String.eqb clickedType "all" then
      updFilters (Filters.set_notTypes ∅) (updFilters (Filters.set_types ∅) st)
    else
      let '(sel, notSel) := App.cycle clickedType (Filters.types f) (Filters.notTypes f) in
      updFilters (Filters.set_notTypes notSel) (updFilters (Filters.set_types sel) st) in
  filterPokemon st.

Definition inputName (value : string) (st : State) : State :=
  filterPokemon (updFilters (Filters.set_name value) st).

Definition resetAllPokemon (st : State) : State :=
  let st := set_disabledPokemon ∅ st in
  let st := set_chosenPokemonId None st in
  let st := updFilters (Filters.set_generations OrdSet.clear) st in
  let st := updFilters (Filters.set_notGenerations OrdSet.clear) st in
  let st := updFilters (Filters.set_types ∅) st in
  let st := updFilters (Filters.set_notTypes ∅) st in
  let st := updFilters (Filters.set_name "") st in
  filterPokemon st.

Inductive Event :=
| ClickReset
| InputName (value : string)
| ClickGenMode
| ClickTypeMode
| ClickGeneration (clickedGen : GenButton)
| ClickType (clickedType : string).

Definition handle (e : Event) (st : State) : State :=
  match e with
  | ClickReset => resetAllPokemon st
  | InputName value => inputName value st
  | ClickGenMode => genModeToggle st
  | ClickTypeMode => typeModeToggle st
  | ClickGeneration b => clickGeneration b st
  | ClickType t => clickType t st
  end.

Definition run (es : list Event) (st : State) : State :=
  fold_left (λ st e, handle e st) es st.

End Part000.

(** ** Concrete data used by the examples below *)
Module Examples.

Definition charmander : App.Pokemon.t :=
  App.Pokemon.mk 4 "charmander" ∅ "sprite4" ["fire"] 1 1 false false false (Some "red").

Definition charizard : App.Pokemon.t :=
  App.Pokemon.mk 6 "charizard" ∅ "sprite6" ["fire"; "flying"] 1 3 false false false (Some "red").

(** A record whose species request failed: no color. *)
Definition squirtle : App.Pokemon.t :=
  App.Pokemon.mk 7 "squirtle" ∅ "sprite7" ["water"] 1 1 false false false None.

Definition catalog : list App.Pokemon.t := [charmander; charizard; squirtle].

(** The loaded page with no filter set. *)
Definition loaded : App.State :=
  App.mkState catalog catalog ∅ None "en" ∅ App.Filters.empty App.Both.

(** Red included, and red excluded. *)
Definition redIncluded : App.State :=
  App.updFilters (App.Filters.set_colors {["red"]}) loaded.

Definition redExcluded : App.State :=
  App.updFilters (App.Filters.set_notColors {["red"]}) loaded.

(** All cards but the first one greyed out. *)
Definition oneLeft : App.State :=
  App.mkState catalog catalog {[6; 7]} None "en" ∅ App.Filters.empty App.Both.

(** The two mode switches of the earlier revision. *)
Definition ember : Part000.Pokemon.t :=
  Part000.Pokemon.mk 4 "charmander" "sprite4" ["fire"] 1.

Definition fireFlying (mode : Part000.TypeMode) : Part000.State :=
  Part000.mkState [ember] [ember] ∅ None ∅
    (Part000.Filters.mk [] [] Part000.multiple {["fire"; "flying"]} ∅ mode "").

(** Multiple mode with generations 2 and 3 included, in that order, and
    generation 5 excluded. *)
Definition multiSelected : Part000.State :=
  Part000.mkState [ember] [ember] ∅ None ∅
    (Part000.Filters.mk [2; 3] [5] Part000.multiple ∅ ∅ Part000.mode_or "").

(** A synthetic service: four species in one chain, a evolving into b,
    b into c and c into d, and an alternate form whose id is beyond
    [MAX_POKEMON_ID].  The reference list is not in id order. *)
Definition refOf (name url : string) : App.PokemonRef.t := App.PokemonRef.mk name url.

Definition refA := refOf "a" "https://pokeapi.co/api/v2/pokemon/1/".
Definition refB := refOf "b" "https://pokeapi.co/api/v2/pokemon/2/".
Definition refC := refOf "c" "https://pokeapi.co/api/v2/pokemon/3/".
Definition refD := refOf "d" "https://pokeapi.co/api/v2/pokemon/4/".
Definition refAlt := refOf "d-mega" "https://pokeapi.co/api/v2/pokemon/10001/".

Definition chainList : list App.PokemonRef.t := [refD; refAlt; refC; refB; refA].

Definition dataOf (id : Z) (name species : string) : App.PokemonData.t :=
  App.PokemonData.mk id name None (Some name) ["normal"] species ("species/" ++ species).

Definition chainPokemon (url : string) : option App.PokemonData.t :=
  if String.eqb url (App.PokemonRef.url refA) then Some (dataOf 1 "a" "a")
  else if String.eqb url (App.PokemonRef.url refB) then Some (dataOf 2 "b" "b")
  else if String.eqb url (App.PokemonRef.url refC) then Some (dataOf 3 "c" "c")
  else if String.eqb url (App.PokemonRef.url refD) then Some (dataOf 4 "d" "d")
  else if String.eqb url (App.PokemonRef.url refAlt) then Some (dataOf 10001 "d-mega" "d")
  else None.

Definition speciesOf (evolves_from : option string) : App.SpeciesData.t :=
  App.SpeciesData.mk [] false false false (Some "gray") evolves_from.

Definition chainSpecies (url : string) : option App.SpeciesData.t :=
  if String.eqb url "species/a" then Some (speciesOf None)
  else if String.eqb url "species/b" then Some (speciesOf (Some "species/a"))
  else if String.eqb url "species/c" then Some (speciesOf (Some "species/b"))
  else if String.eqb url "species/d" then Some (speciesOf (Some "species/c"))
  else None.

Definition chainSrc : App.Source.t :=
  App.Source.mk (λ _, None) (Some chainList) chainPokemon chainSpecies.

(** The same service with every species request failing, and with the
    reference list request failing. *)
Definition speciesDown : App.Source.t :=
  App.Source.mk (λ _, None) (Some chainList) chainPokemon (λ _, None).

Definition listDown : App.Source.t :=
  App.Source.mk (λ _, None) None chainPokemon chainSpecies.

(** The record built for [d] by [chainSrc] and by [speciesDown]. *)
Definition recordD : App.Pokemon.t :=
  App.Pokemon.mk 4 "d" ∅ "d" ["normal"] 1 3 false false false (Some "gray").

Definition bareD : App.Pokemon.t :=
  App.Pokemon.mk 4 "d" ∅ "d" ["normal"] 1 1 false false false None.

(** A service that answers the detail request of [/pokemon/5/] with
    another id than the one the url encodes. *)
Definition refE := refOf "e" "https://pokeapi.co/api/v2/pokemon/5/".

Definition misnumbered : App.Source.t :=
  App.Source.mk (λ _, None) (Some [refE])
    (λ url, if String.eqb url (App.PokemonRef.url refE)
            then Some (dataOf 2000 "e" "e") else None)
    (λ _, None).

Definition recordE : App.Pokemon.t :=
  App.Pokemon.mk 2000 "e" ∅ "e" ["normal"] 1 1 false false false None.

(** Generation responses: two generations with disjoint species lists,
    and two that both list b. *)
Definition twoGenerations : App.Source.t :=
  App.Source.mk
    (λ i, if (i =? 1)%Z then Some ["a"; "b"]
          else if (i =? 2)%Z then Some ["c"; "d"] else None)
    (Some chainList) chainPokemon chainSpecies.


End Examples.

(** ** Observations of the asynchronous code

    What the [async] functions of [App] resolve to and which requests they
    issue, read off a run on a fresh request log. *)
Module Run.

Section Run.

Context (src : App.Source.t).

(** The value [fetchPokemonDetails] resolves to ([None] is [null]) when
    [state.generationMap] is [generationMap]. *)
Definition details (generationMap : gmap string Z) (pokemon : App.PokemonRef.t)
  : option App.Pokemon.t :=
  default None
    (App.fetchPokemonDetails src pokemon
       (App.mkWorld (App.set_generationMap generationMap App.state0) [])).1.

(** The requests [fetchPokemonDetails] issues, in order. *)
Definition detailRequests (pokemon : App.PokemonRef.t) : list App.Request :=
  App.requests (App.fetchPokemonDetails src pokemon (App.mkWorld App.state0 [])).2.

(** [state.generationMap] once [fetchGenerationMappings] has resolved, the
    responses having arrived in [order]. *)
Definition generationMapAfter (order : list Z) : gmap string Z :=
  App.generationMap
    (App.state (App.fetchGenerationMappings src order (App.mkWorld App.state0 [])).2).

(** [state.allPokemon] once [init] has settled. *)
Definition catalog (order : list Z) (savedLanguage : option string) : list App.Pokemon.t :=
  App.allPokemon (App.state (App.load src order savedLanguage).2).

(** The requests issued by [init], in order. *)
Definition requestLog (order : list Z) (savedLanguage : option string) : list App.Request :=
  App.requests (App.load src order savedLanguage).2.

End Run.

End Run.

(** * Properties *)

(** ** Lists and sets *)

Lemma In_stage_app cond pred (l : list App.Pokemon.t) p :
  In p (App.stage cond pred l) ↔ In p l ∧ (cond = true → pred p = true).
Proof.
  unfold App.stage. destruct cond.
  - rewrite filter_In. intuition.
  - intuition discriminate.
Qed.

Lemma In_stage_part cond pred (l : list Part000.Pokemon.t) p :
  In p (Part000.stage cond pred l) ↔ In p l ∧ (cond = true → pred p = true).
Proof.
  unfold Part000.stage. destruct cond.
  - rewrite filter_In. intuition.
  - intuition discriminate.
Qed.

Lemma nonEmpty_true `{Countable A} (s : gset A) : JS.nonEmpty s = true ↔ s ≠ ∅.
Proof.
  unfold JS.nonEmpty. rewrite Nat.ltb_lt. split.
  - intros Hs ->. rewrite size_empty in Hs. lia.
  - intros Hs. destruct (size s) eqn:E; [|lia].
    apply size_empty_iff in E. destruct Hs. by apply leibniz_equiv.
Qed.

Lemma nonEmpty_empty `{Countable A} : JS.nonEmpty (∅ : gset A) = false.
Proof. unfold JS.nonEmpty. by rewrite size_empty. Qed.

Lemma has_true `{Countable A} (s : gset A) x : JS.has s x = true ↔ x ∈ s.
Proof. unfold JS.has. apply bool_decide_eq_true. Qed.

Lemma has_false `{Countable A} (s : gset A) x : JS.has s x = false ↔ x ∉ s.
Proof. unfold JS.has. apply bool_decide_eq_false. Qed.

Lemma truthyStr_true s : JS.truthyStr s = true ↔ s ≠ "".
Proof. destruct s; simpl; split; congruence. Qed.

(** ** The filter engine of [src/app.js] *)

(** [filterPokemon] keeps exactly the records of the catalog that pass
    every active stage. *)
Lemma In_filtered_app st p :
  In p (App.filtered st) ↔
    In p (App.allPokemon st) ∧
    let f := App.currentFilters st in
    (JS.truthyStr (App.Filters.name f) = true →
       App.matchesName (App.currentLanguage st) (JS.toLowerCase (App.Filters.name f)) p = true) ∧
    (JS.nonEmpty (App.Filters.generations f) = true →
       JS.has (App.Filters.generations f) (App.Pokemon.generation p) = true) ∧
    (JS.nonEmpty (App.Filters.notGenerations f) = true →
       negb (JS.has (App.Filters.notGenerations f) (App.Pokemon.generation p)) = true) ∧
    (JS.nonEmpty (App.Filters.types f) = true → App.hasAllTypes (App.Filters.types f) p = true) ∧
    (JS.nonEmpty (App.Filters.notTypes f) = true →
       negb (App.hasSomeType (App.Filters.notTypes f) p) = true) ∧
    (JS.nonEmpty (App.Filters.typeCount f) = true →
       App.typeCountIn (App.Filters.typeCount f) p = true) ∧
    (JS.nonEmpty (App.Filters.notTypeCount f) = true →
       App.typeCountNotIn (App.Filters.notTypeCount f) p = true) ∧
    (JS.nonEmpty (App.Filters.evolutionStages f) = true →
       JS.has (App.Filters.evolutionStages f) (App.Pokemon.evolutionStage p) = true) ∧
    (JS.nonEmpty (App.Filters.notEvolutionStages f) = true →
       negb (JS.has (App.Filters.notEvolutionStages f) (App.Pokemon.evolutionStage p)) = true) ∧
    (JS.nonEmpty (App.Filters.specialCategories f) = true →
       App.specialIn (App.Filters.specialCategories f) p = true) ∧
    (JS.nonEmpty (App.Filters.notSpecialCategories f) = true →
       App.specialNotIn (App.Filters.notSpecialCategories f) p = true) ∧
    (JS.nonEmpty (App.Filters.colors f) = true → App.colorIn (App.Filters.colors f) p = true) ∧
    (JS.nonEmpty (App.Filters.notColors f) = true →
       App.colorNotIn (App.Filters.notColors f) p = true).
Proof.
  unfold App.filtered. cbv zeta. rewrite !In_stage_app. tauto.
Qed.

(** With every set empty and an empty name no stage runs. *)
Lemma filtered_empty_filters st :
  App.currentFilters st = App.Filters.empty → App.filtered st = App.allPokemon st.
Proof.
  intros Hf. unfold App.filtered. rewrite Hf. simpl.
  by rewrite !nonEmpty_empty.
Qed.

(** Stages that follow the color stages do not exist, and the stages
    before them do not read the color sets: membership in the result
    splits into the color test and the result without that color set. *)
Lemma In_filtered_colors st p :
  In p (App.filtered st) ↔
    In p (App.filtered (App.updFilters (App.Filters.set_colors ∅) st)) ∧
    (App.Filters.colors (App.currentFilters st) ≠ ∅ →
       App.colorIn (App.Filters.colors (App.currentFilters st)) p = true).
Proof.
  rewrite !In_filtered_app. simpl. rewrite <- nonEmpty_true.
  rewrite nonEmpty_empty. intuition discriminate.
Qed.

Lemma In_filtered_notColors st p :
  In p (App.filtered st) ↔
    In p (App.filtered (App.updFilters (App.Filters.set_notColors ∅) st)) ∧
    (App.Filters.notColors (App.currentFilters st) ≠ ∅ →
       App.colorNotIn (App.Filters.notColors (App.currentFilters st)) p = true).
Proof.
  rewrite !In_filtered_app. simpl. rewrite <- nonEmpty_true.
  rewrite nonEmpty_empty. intuition discriminate.
Qed.

Lemma updFilters_notColors_twice x y st :
  App.updFilters (App.Filters.set_notColors x) (App.updFilters (App.Filters.set_notColors y) st)
  = App.updFilters (App.Filters.set_notColors x) st.
Proof. reflexivity. Qed.

(** C10.  A record without a color is rejected as soon as the color
    include set is non-empty and is never removed by the color exclude
    set, whatever that set holds; a record with a (non-empty) color [c]
    passes the include set exactly when [c] is in it and passes the
    exclude set exactly when [c] is not in it. *)
Theorem color_absent_edge_case (st : App.State) (p : App.Pokemon.t) :
  (App.Pokemon.color p = None →
     (App.Filters.colors (App.currentFilters st) ≠ ∅ →
        ¬ In p (App.displayedPokemon (App.filterPokemon st))) ∧
     (∀ excluded : gset string,
        In p (App.displayedPokemon
                (App.filterPokemon (App.updFilters (App.Filters.set_notColors excluded) st)))
        ↔ In p (App.displayedPokemon
                  (App.filterPokemon (App.updFilters (App.Filters.set_notColors ∅) st))))) ∧
  (∀ c, App.Pokemon.color p = Some c → c ≠ "" →
     (App.Filters.colors (App.currentFilters st) ≠ ∅ →
        (In p (App.displayedPokemon (App.filterPokemon st))
         ↔ c ∈ App.Filters.colors (App.currentFilters st) ∧
           In p (App.displayedPokemon
                   (App.filterPokemon (App.updFilters (App.Filters.set_colors ∅) st))))) ∧
     (In p (App.displayedPokemon (App.filterPokemon st))
      ↔ c ∉ App.Filters.notColors (App.currentFilters st) ∧
        In p (App.displayedPokemon
                (App.filterPokemon (App.updFilters (App.Filters.set_notColors ∅) st))))).
Proof.
  simpl. split.
  - intros Hc. split.
    + intros Hne Hin. apply In_filtered_colors in Hin as [_ Hin].
      specialize (Hin Hne). unfold App.colorIn in Hin. rewrite Hc in Hin. discriminate.
    + intros excluded.
      rewrite (In_filtered_notColors (App.updFilters (App.Filters.set_notColors excluded) st)).
      rewrite updFilters_notColors_twice. unfold App.colorNotIn. rewrite Hc. tauto.
  - intros c Hc Hne. apply truthyStr_true in Hne. split.
    + intros Hsel. rewrite In_filtered_colors. unfold App.colorIn. rewrite Hc, Hne. simpl.
      rewrite has_true. tauto.
    + rewrite In_filtered_notColors. unfold App.colorNotIn. rewrite Hc, Hne. simpl.
      rewrite negb_true_iff, has_false.
      destruct (decide (App.Filters.notColors (App.currentFilters st) = ∅)) as [->|Hn].
      * set_solver.
      * tauto.
Qed.

Lemma color_absent_edge_case_witness :
  ¬ In Examples.squirtle (App.displayedPokemon (App.filterPokemon Examples.redIncluded)) ∧
  (In Examples.charmander (App.displayedPokemon (App.filterPokemon Examples.redExcluded))
   ↔ "red" ∉ App.Filters.notColors (App.currentFilters Examples.redExcluded) ∧
     In Examples.charmander
        (App.displayedPokemon
           (App.filterPokemon (App.updFilters (App.Filters.set_notColors ∅) Examples.redExcluded)))).
Proof.
  split.
  - destruct (color_absent_edge_case Examples.redIncluded Examples.squirtle) as [Hnone _].
    destruct (Hnone eq_refl) as [Hrej _]. apply Hrej.
    change ({["red"]} ≠ (∅ : gset string)). apply non_empty_singleton_L.
  - destruct (color_absent_edge_case Examples.redExcluded Examples.charmander) as [_ Hsome].
    destruct (Hsome "red" eq_refl) as [_ Hexc]; [discriminate|]. exact Hexc.
Defined.

(** C8.  Whatever the state before, [resetAllPokemon] leaves every
    include and exclude set empty, the name query empty, no disabled id,
    no chosen id, and displays the whole catalog in its order. *)
Theorem reset_postcondition (st : App.State) :
  let st' := App.resetAllPokemon st in
  App.currentFilters st' = App.Filters.empty ∧
  App.disabledPokemon st' = ∅ ∧
  App.chosenPokemonId st' = None ∧
  App.allPokemon st' = App.allPokemon st ∧
  App.filtered st' = App.allPokemon st ∧
  App.displayedPokemon st' = App.allPokemon st.
Proof.
  assert (Hf : App.filtered (App.resetAllPokemon st) = App.allPokemon st).
  { apply (filtered_empty_filters (App.resetAllPokemon st)). reflexivity. }
  cbv zeta. split; [reflexivity|]. split; [reflexivity|]. split; [reflexivity|].
  split; [reflexivity|]. split; [exact Hf|].
  unfold App.resetAllPokemon, App.filterPokemon. cbv zeta.
  cbn [App.displayedPokemon App.set_displayedPokemon].
  rewrite filtered_empty_filters by reflexivity. reflexivity.
Qed.

(** ** The filter engine of [src/unnamed/part_000] *)

Lemma hasAllTypes_part_true sel p :
  Part000.hasAllTypes sel p = true ↔ ∀ t, t ∈ sel → t ∈ Part000.Pokemon.types p.
Proof.
  unfold Part000.hasAllTypes. rewrite forallb_forall. split.
  - intros Hall t Ht. eapply bool_decide_eq_true_1, Hall.
    apply list_elem_of_In, elem_of_elements, Ht.
  - intros Hall t Ht. apply bool_decide_eq_true_2, Hall.
    apply elem_of_elements, list_elem_of_In, Ht.
Qed.

Lemma hasSomeType_part_true sel p :
  Part000.hasSomeType sel p = true ↔ ∃ t, t ∈ Part000.Pokemon.types p ∧ t ∈ sel.
Proof.
  unfold Part000.hasSomeType. rewrite existsb_exists. split.
  - intros (t & Ht & Hs). exists t. split; [by apply list_elem_of_In|by apply has_true].
  - intros (t & Ht & Hs). exists t. split; [by apply list_elem_of_In|by apply has_true].
Qed.

Lemma In_filtered_part st p :
  In p (Part000.filtered st) ↔
    In p (Part000.allPokemon st) ∧
    let f := Part000.currentFilters st in
    (JS.truthyStr (Part000.Filters.name f) = true →
       JS.includes (JS.toLowerCase (Part000.Pokemon.name p))
                   (JS.toLowerCase (Part000.Filters.name f)) = true) ∧
    (Nat.ltb 0 (Part000.OrdSet.size (Part000.Filters.generations f)) = true →
       Part000.OrdSet.has (Part000.Filters.generations f) (Part000.Pokemon.generation p) = true) ∧
    (Nat.ltb 0 (Part000.OrdSet.size (Part000.Filters.notGenerations f)) = true →
       negb (Part000.OrdSet.has (Part000.Filters.notGenerations f)
                                (Part000.Pokemon.generation p)) = true) ∧
    (JS.nonEmpty (Part000.Filters.types f) = true →
       match Part000.Filters.typeMode f with
       | Part000.mode_and => Part000.hasAllTypes (Part000.Filters.types f) p
       | Part000.mode_or => Part000.hasSomeType (Part000.Filters.types f) p
       end = true) ∧
    (JS.nonEmpty (Part000.Filters.notTypes f) = true →
       negb (Part000.hasSomeType (Part000.Filters.notTypes f) p) = true).
Proof.
  unfold Part000.filtered. cbv zeta. rewrite !In_stage_part.
  destruct (JS.nonEmpty (Part000.Filters.types (Part000.currentFilters st)));
    [destruct (Part000.Filters.typeMode (Part000.currentFilters st)); rewrite filter_In|];
    rewrite !In_stage_part; intuition discriminate.
Qed.

(** Membership in the displayed list splits into the type inclusion test
    and membership with the type include set emptied. *)
Lemma In_filtered_part_types st p :
  In p (Part000.filtered st) ↔
    In p (Part000.filtered (Part000.updFilters (Part000.Filters.set_types ∅) st)) ∧
    (Part000.Filters.types (Part000.currentFilters st) ≠ ∅ →
       match Part000.Filters.typeMode (Part000.currentFilters st) with
       | Part000.mode_and =>
           Part000.hasAllTypes (Part000.Filters.types (Part000.currentFilters st)) p
       | Part000.mode_or =>
           Part000.hasSomeType (Part000.Filters.types (Part000.currentFilters st)) p
       end = true).
Proof.
  rewrite !In_filtered_part. simpl. rewrite <- nonEmpty_true.
  rewrite nonEmpty_empty. intuition discriminate.
Qed.

(** C1.  The type inclusion test depends on the mode.  With a non-empty
    include set, in OR mode a record is displayed exactly when it passes
    the other stages and has at least one included type; in AND mode,
    exactly when it passes the other stages and has all included types.
    In particular a record whose types are exactly [fire], with include
    set [{fire, flying}], is rejected in AND mode and accepted in OR mode
    (when the other stages let it through). *)
Theorem type_inclusion_by_mode (st : Part000.State) (p : Part000.Pokemon.t) :
  let f := Part000.currentFilters st in
  let displayed := Part000.displayedPokemon (Part000.filterPokemon st) in
  let otherStages :=
    Part000.displayedPokemon
      (Part000.filterPokemon (Part000.updFilters (Part000.Filters.set_types ∅) st)) in
  Part000.Filters.types f ≠ ∅ →
  (Part000.Filters.typeMode f = Part000.mode_or →
     (In p displayed ↔
        In p otherStages ∧
        ∃ t, t ∈ Part000.Pokemon.types p ∧ t ∈ Part000.Filters.types f)) ∧
  (Part000.Filters.typeMode f = Part000.mode_and →
     (In p displayed ↔
        In p otherStages ∧
        ∀ t, t ∈ Part000.Filters.types f → t ∈ Part000.Pokemon.types p)) ∧
  (Part000.Pokemon.types p = ["fire"] →
   Part000.Filters.types f = {["fire"; "flying"]} →
   In p otherStages →
     (Part000.Filters.typeMode f = Part000.mode_and → ¬ In p displayed) ∧
     (Part000.Filters.typeMode f = Part000.mode_or → In p displayed)).
Proof.
  cbv zeta. intros Hne.
  change (Part000.displayedPokemon (Part000.filterPokemon st)) with (Part000.filtered st).
  change (Part000.displayedPokemon
            (Part000.filterPokemon (Part000.updFilters (Part000.Filters.set_types ∅) st)))
    with (Part000.filtered (Part000.updFilters (Part000.Filters.set_types ∅) st)).
  rewrite (In_filtered_part_types st p).
  split; [|split].
  - intros ->. rewrite hasSomeType_part_true. tauto.
  - intros ->. rewrite hasAllTypes_part_true. tauto.
  - intros Hp Hf Hin. split; intros ->.
    + rewrite hasAllTypes_part_true. intros [_ Hall].
      specialize (Hall Hne "flying"). rewrite Hp, Hf in Hall.
      assert (Hfl : "flying" ∈ ["fire"]) by (apply Hall; set_solver).
      apply list_elem_of_singleton in Hfl. discriminate.
    + rewrite hasSomeType_part_true. split; [exact Hin|].
      intros _. exists "fire". rewrite Hp, Hf. split; set_solver.
Qed.

Lemma type_inclusion_by_mode_witness :
  ¬ In Examples.ember
      (Part000.displayedPokemon (Part000.filterPokemon (Examples.fireFlying Part000.mode_and))) ∧
  In Examples.ember
     (Part000.displayedPokemon (Part000.filterPokemon (Examples.fireFlying Part000.mode_or))).
Proof.
  assert (Hne : ({["fire"; "flying"]} : gset string) ≠ ∅).
  { intros Habs. apply (non_empty_singleton_L (C:=gset string) "fire"). set_solver. }
  assert (Hother : ∀ m, In Examples.ember
     (Part000.displayedPokemon
        (Part000.filterPokemon
           (Part000.updFilters (Part000.Filters.set_types ∅) (Examples.fireFlying m))))).
  { intros m. left. reflexivity. }
  split.
  - destruct (type_inclusion_by_mode (Examples.fireFlying Part000.mode_and) Examples.ember Hne)
      as (_ & _ & Hfire).
    destruct (Hfire eq_refl eq_refl (Hother Part000.mode_and)) as [Hand _].
    exact (Hand eq_refl).
  - destruct (type_inclusion_by_mode (Examples.fireFlying Part000.mode_or) Examples.ember Hne)
      as (_ & _ & Hfire).
    destruct (Hfire eq_refl eq_refl (Hother Part000.mode_or)) as [_ Hor].
    exact (Hor eq_refl).
Defined.

(** ** The tri-state listeners *)

Section Cycle.

Context `{Countable A}.
Implicit Types (v : A) (sel notSel : gset A).

Lemma cycle_unselected v sel notSel :
  v ∉ sel → v ∉ notSel → App.cycle v sel notSel = ({[v]} ∪ sel, notSel).
Proof.
  intros Hs Hn. unfold App.cycle.
  apply has_false in Hs. apply has_false in Hn. by rewrite Hs, Hn.
Qed.

Lemma cycle_active v sel notSel :
  v ∈ sel → App.cycle v sel notSel = (sel ∖ {[v]}, {[v]} ∪ notSel).
Proof.
  intros Hs. unfold App.cycle. apply has_true in Hs. by rewrite Hs.
Qed.

Lemma cycle_not v sel notSel :
  v ∉ sel → v ∈ notSel → App.cycle v sel notSel = (sel, notSel ∖ {[v]}).
Proof.
  intros Hs Hn. unfold App.cycle.
  apply has_false in Hs. apply has_true in Hn. by rewrite Hs, Hn.
Qed.

(** One click: unselected to included. *)
Lemma cycle_once v sel notSel :
  v ∉ sel → v ∉ notSel →
  v ∈ (App.cycle v sel notSel).1 ∧ v ∉ (App.cycle v sel notSel).2.
Proof. intros Hs Hn. rewrite cycle_unselected by done. simpl. set_solver. Qed.

(** Two clicks: included to excluded. *)
Lemma cycle_twice v sel notSel :
  v ∉ sel → v ∉ notSel →
  let c1 := App.cycle v sel notSel in
  let c2 := App.cycle v c1.1 c1.2 in
  v ∉ c2.1 ∧ v ∈ c2.2.
Proof.
  intros Hs Hn. cbv zeta. rewrite (cycle_unselected v sel notSel) by done. simpl.
  rewrite cycle_active by set_solver. simpl. set_solver.
Qed.

(** Three clicks: back to the pair of sets before the first. *)
Lemma cycle_thrice v sel notSel :
  v ∉ sel → v ∉ notSel →
  let c1 := App.cycle v sel notSel in
  let c2 := App.cycle v c1.1 c1.2 in
  App.cycle v c2.1 c2.2 = (sel, notSel).
Proof.
  intros Hs Hn. cbv zeta. rewrite (cycle_unselected v sel notSel) by done. simpl.
  rewrite (cycle_active v ({[v]} ∪ sel) notSel) by set_solver. simpl.
  rewrite cycle_not; [f_equal; set_solver|set_solver|set_solver].
Qed.

(** The two sets stay disjoint under a click. *)
Lemma cycle_disjoint v sel notSel :
  sel ## notSel → (App.cycle v sel notSel).1 ## (App.cycle v sel notSel).2.
Proof.
  intros Hd. unfold App.cycle.
  destruct (JS.has sel v) eqn:Es; destruct (JS.has notSel v) eqn:En; simpl;
    rewrite ?has_true, ?has_false in Es, En; set_solver.
Qed.

End Cycle.

(** What each tri-state listener leaves in [state.currentFilters]. *)
Lemma clickGeneration_filters v st :
  App.currentFilters (App.clickGeneration (App.Num v) st) =
    let f := App.currentFilters st in
    let c := App.cycle v (App.Filters.generations f) (App.Filters.notGenerations f) in
    App.Filters.set_notGenerations c.2 (App.Filters.set_generations c.1 f).
Proof. unfold App.clickGeneration. cbv zeta. by destruct (App.cycle _ _ _). Qed.

Lemma clickType_filters v st :
  v ≠ "all" →
  App.currentFilters (App.clickType v st) =
    let f := App.currentFilters st in
    let c := App.cycle v (App.Filters.types f) (App.Filters.notTypes f) in
    App.Filters.set_notTypes c.2 (App.Filters.set_types c.1 f).
Proof.
  intros Hv. unfold App.clickType. cbv zeta.
  apply String.eqb_neq in Hv. rewrite Hv. by destruct (App.cycle _ _ _).
Qed.

Lemma clickEvolution_filters v st :
  App.currentFilters (App.clickEvolution (App.Num v) st) =
    let f := App.currentFilters st in
    let c := App.cycle v (App.Filters.evolutionStages f) (App.Filters.notEvolutionStages f) in
    App.Filters.set_notEvolutionStages c.2 (App.Filters.set_evolutionStages c.1 f).
Proof. unfold App.clickEvolution. cbv zeta. by destruct (App.cycle _ _ _). Qed.

Lemma clickSpecial_filters v st :
  App.currentFilters (App.clickSpecial v st) =
    let f := App.currentFilters st in
    let c := App.cycle v (App.Filters.specialCategories f) (App.Filters.notSpecialCategories f) in
    App.Filters.set_notSpecialCategories c.2 (App.Filters.set_specialCategories c.1 f).
Proof. unfold App.clickSpecial. cbv zeta. by destruct (App.cycle _ _ _). Qed.

Lemma clickColor_filters v st :
  App.currentFilters (App.clickColor v st) =
    let f := App.currentFilters st in
    let c := App.cycle v (App.Filters.colors f) (App.Filters.notColors f) in
    App.Filters.set_notColors c.2 (App.Filters.set_colors c.1 f).
Proof. unfold App.clickColor. cbv zeta. by destruct (App.cycle _ _ _). Qed.

(** The same for the insertion-ordered generation sets of the earlier
    revision, in multiple mode. *)
Lemma OrdSet_has_true s x : Part000.OrdSet.has s x = true ↔ x ∈ s.
Proof. apply bool_decide_eq_true. Qed.

Lemma OrdSet_has_false s x : Part000.OrdSet.has s x = false ↔ x ∉ s.
Proof. apply bool_decide_eq_false. Qed.

Lemma OrdSet_delete_absent x s : x ∉ s → Part000.OrdSet.delete x s = s.
Proof.
  unfold Part000.OrdSet.delete. induction s as [|y s IH]; [done|].
  intros Hx. apply not_elem_of_cons in Hx as [Hxy Hx]. simpl.
  destruct (Z.eqb_spec y x); [congruence|]. simpl. by rewrite IH.
Qed.

Lemma OrdSet_delete_add x s : x ∉ s → Part000.OrdSet.delete x (Part000.OrdSet.add x s) = s.
Proof.
  intros Hx. unfold Part000.OrdSet.add.
  apply OrdSet_has_false in Hx as Hh. rewrite Hh.
  unfold Part000.OrdSet.delete. rewrite List.filter_app. simpl.
  rewrite Z.eqb_refl. simpl. rewrite app_nil_r. by apply OrdSet_delete_absent.
Qed.

Lemma OrdSet_elem_of_add x y s : y ∈ Part000.OrdSet.add x s ↔ y = x ∨ y ∈ s.
Proof.
  unfold Part000.OrdSet.add. destruct (Part000.OrdSet.has s x) eqn:E.
  - apply OrdSet_has_true in E. set_solver.
  - set_solver.
Qed.

Lemma OrdSet_elem_of_delete x y s : y ∈ Part000.OrdSet.delete x s ↔ y ≠ x ∧ y ∈ s.
Proof.
  unfold Part000.OrdSet.delete. rewrite list_elem_of_In, filter_In, <- list_elem_of_In.
  rewrite negb_true_iff, Z.eqb_neq. tauto.
Qed.

Lemma clickGeneration_part_multiple v st :
  Part000.Filters.generationMode (Part000.currentFilters st) = Part000.multiple →
  Part000.currentFilters (Part000.clickGeneration (Part000.Num v) st) =
    let f := Part000.currentFilters st in
    let c := Part000.cycleGen (Part000.OrdSet.has (Part000.Filters.generations f) v)
                              (Part000.OrdSet.has (Part000.Filters.notGenerations f) v)
                              v (Part000.Filters.generations f) (Part000.Filters.notGenerations f) in
    Part000.Filters.set_notGenerations c.2 (Part000.Filters.set_generations c.1 f).
Proof.
  intros Hm. unfold Part000.clickGeneration. cbv zeta. rewrite Hm.
  by destruct (Part000.cycleGen _ _ _ _ _).
Qed.

(** Projections of [state.currentFilters] after field assignments. *)
Ltac filters_simpl :=
  cbv [App.Filters.generations App.Filters.notGenerations App.Filters.types
       App.Filters.notTypes App.Filters.typeCount App.Filters.notTypeCount
       App.Filters.evolutionStages App.Filters.notEvolutionStages
       App.Filters.specialCategories App.Filters.notSpecialCategories
       App.Filters.colors App.Filters.notColors App.Filters.name
       App.Filters.set_generations App.Filters.set_notGenerations App.Filters.set_types
       App.Filters.set_notTypes App.Filters.set_typeCount App.Filters.set_notTypeCount
       App.Filters.set_evolutionStages App.Filters.set_notEvolutionStages
       App.Filters.set_specialCategories App.Filters.set_notSpecialCategories
       App.Filters.set_colors App.Filters.set_notColors App.Filters.set_name
       fst snd] in *.

Ltac part_simpl :=
  cbv [Part000.Filters.generations Part000.Filters.notGenerations
       Part000.Filters.generationMode Part000.Filters.types Part000.Filters.notTypes
       Part000.Filters.typeMode Part000.Filters.name
       Part000.Filters.set_generations Part000.Filters.set_notGenerations
       Part000.Filters.set_generationMode Part000.Filters.set_types
       Part000.Filters.set_notTypes Part000.Filters.set_typeMode Part000.Filters.set_name
       Part000.cycleGen negb andb fst snd] in *.

(** Three clicks on an unselected value, one listener at a time: [step E]
    rewrites, in [E], [currentFilters] after a click of that listener. *)
Ltac round_trip step :=
  let Hs := fresh "Hs" in let Hn := fresh "Hn" in
  let st1 := fresh "st1" in let st2 := fresh "st2" in let st3 := fresh "st3" in
  let E1 := fresh "E1" in let E2 := fresh "E2" in let E3 := fresh "E3" in
  intros Hs Hn st1 st2 st3;
  assert (E1 := eq_refl (App.currentFilters st1));
  unfold st1 at 2 in E1; step E1; cbv zeta in E1;
  rewrite cycle_unselected in E1 by done;
  assert (E2 := eq_refl (App.currentFilters st2));
  unfold st2 at 2 in E2; step E2; cbv zeta in E2; rewrite E1 in E2;
  filters_simpl;
  rewrite cycle_active in E2 by (clear -Hs Hn; set_solver);
  assert (E3 := eq_refl (App.currentFilters st3));
  unfold st3 at 2 in E3; step E3; cbv zeta in E3; rewrite E2 in E3;
  filters_simpl;
  rewrite cycle_not in E3 by (clear -Hs Hn; set_solver);
  rewrite E1, E2, E3; clear E1 E2 E3 st1 st2 st3;
  destruct (App.currentFilters _); filters_simpl;
  split; [set_solver|split; [set_solver|f_equal; set_solver]].

(** C7.  For each of the five tri-state facets of [src/app.js] and for the
    generation facet of the earlier revision in multiple mode: when [v] is
    in neither the include nor the exclude set, one click puts it in the
    include set only, a second click in the exclude set only, and a third
    click restores [currentFilters] to what it was before the first. *)
Theorem tri_state_round_trip (st : App.State) (old : Part000.State) :
  (∀ v,
     v ∉ App.Filters.generations (App.currentFilters st) →
     v ∉ App.Filters.notGenerations (App.currentFilters st) →
     let st1 := App.clickGeneration (App.Num v) st in
     let st2 := App.clickGeneration (App.Num v) st1 in
     let st3 := App.clickGeneration (App.Num v) st2 in
     (v ∈ App.Filters.generations (App.currentFilters st1) ∧
      v ∉ App.Filters.notGenerations (App.currentFilters st1)) ∧
     (v ∉ App.Filters.generations (App.currentFilters st2) ∧
      v ∈ App.Filters.notGenerations (App.currentFilters st2)) ∧
     App.currentFilters st3 = App.currentFilters st) ∧
  (∀ v,
     v ≠ "all" →
     v ∉ App.Filters.types (App.currentFilters st) →
     v ∉ App.Filters.notTypes (App.currentFilters st) →
     let st1 := App.clickType v st in
     let st2 := App.clickType v st1 in
     let st3 := App.clickType v st2 in
     (v ∈ App.Filters.types (App.currentFilters st1) ∧
      v ∉ App.Filters.notTypes (App.currentFilters st1)) ∧
     (v ∉ App.Filters.types (App.currentFilters st2) ∧
      v ∈ App.Filters.notTypes (App.currentFilters st2)) ∧
     App.currentFilters st3 = App.currentFilters st) ∧
  (∀ v,
     v ∉ App.Filters.evolutionStages (App.currentFilters st) →
     v ∉ App.Filters.notEvolutionStages (App.currentFilters st) →
     let st1 := App.clickEvolution (App.Num v) st in
     let st2 := App.clickEvolution (App.Num v) st1 in
     let st3 := App.clickEvolution (App.Num v) st2 in
     (v ∈ App.Filters.evolutionStages (App.currentFilters st1) ∧
      v ∉ App.Filters.notEvolutionStages (App.currentFilters st1)) ∧
     (v ∉ App.Filters.evolutionStages (App.currentFilters st2) ∧
      v ∈ App.Filters.notEvolutionStages (App.currentFilters st2)) ∧
     App.currentFilters st3 = App.currentFilters st) ∧
  (∀ v,
     v ∉ App.Filters.specialCategories (App.currentFilters st) →
     v ∉ App.Filters.notSpecialCategories (App.currentFilters st) →
     let st1 := App.clickSpecial v st in
     let st2 := App.clickSpecial v st1 in
     let st3 := App.clickSpecial v st2 in
     (v ∈ App.Filters.specialCategories (App.currentFilters st1) ∧
      v ∉ App.Filters.notSpecialCategories (App.currentFilters st1)) ∧
     (v ∉ App.Filters.specialCategories (App.currentFilters st2) ∧
      v ∈ App.Filters.notSpecialCategories (App.currentFilters st2)) ∧
     App.currentFilters st3 = App.currentFilters st) ∧
  (∀ v,
     v ∉ App.Filters.colors (App.currentFilters st) →
     v ∉ App.Filters.notColors (App.currentFilters st) →
     let st1 := App.clickColor v st in
     let st2 := App.clickColor v st1 in
     let st3 := App.clickColor v st2 in
     (v ∈ App.Filters.colors (App.currentFilters st1) ∧
      v ∉ App.Filters.notColors (App.currentFilters st1)) ∧
     (v ∉ App.Filters.colors (App.currentFilters st2) ∧
      v ∈ App.Filters.notColors (App.currentFilters st2)) ∧
     App.currentFilters st3 = App.currentFilters st) ∧
  (∀ v,
     Part000.Filters.generationMode (Part000.currentFilters old) = Part000.multiple →
     v ∉ Part000.Filters.generations (Part000.currentFilters old) →
     v ∉ Part000.Filters.notGenerations (Part000.currentFilters old) →
     let st1 := Part000.clickGeneration (Part000.Num v) old in
     let st2 := Part000.clickGeneration (Part000.Num v) st1 in
     let st3 := Part000.clickGeneration (Part000.Num v) st2 in
     (v ∈ Part000.Filters.generations (Part000.currentFilters st1) ∧
      v ∉ Part000.Filters.notGenerations (Part000.currentFilters st1)) ∧
     (v ∉ Part000.Filters.generations (Part000.currentFilters st2) ∧
      v ∈ Part000.Filters.notGenerations (Part000.currentFilters st2)) ∧
     Part000.currentFilters st3 = Part000.currentFilters old).
Proof.
  split; [|split; [|split; [|split; [|split]]]]; intros v.
  - round_trip ltac:(fun E => rewrite clickGeneration_filters in E).
  - intros Hv. round_trip ltac:(fun E => rewrite clickType_filters in E by exact Hv).
  - round_trip ltac:(fun E => rewrite clickEvolution_filters in E).
  - round_trip ltac:(fun E => rewrite clickSpecial_filters in E).
  - round_trip ltac:(fun E => rewrite clickColor_filters in E).
  - intros Hm Hs Hn st1 st2 st3.
    assert (Hadd : ∀ s, Part000.OrdSet.has (Part000.OrdSet.add v s) v = true).
    { intros s. apply OrdSet_has_true, OrdSet_elem_of_add. by left. }
    assert (E1 := eq_refl (Part000.currentFilters st1)).
    unfold st1 at 2 in E1. rewrite clickGeneration_part_multiple in E1 by exact Hm.
    destruct (Part000.currentFilters old) as [g ng m t nt tm nm].
    part_simpl. subst m.
    apply OrdSet_has_false in Hs as Hs'. apply OrdSet_has_false in Hn as Hn'.
    rewrite Hs', Hn' in E1. part_simpl.
    assert (E2 := eq_refl (Part000.currentFilters st2)).
    unfold st2 at 2 in E2.
    rewrite clickGeneration_part_multiple in E2 by (by rewrite E1).
    rewrite E1 in E2. part_simpl. rewrite Hadd in E2. part_simpl.
    assert (E3 := eq_refl (Part000.currentFilters st3)).
    unfold st3 at 2 in E3.
    rewrite clickGeneration_part_multiple in E3 by (by rewrite E2).
    rewrite E2 in E3. part_simpl.
    rewrite Hadd, OrdSet_delete_add, Hs' in E3 by exact Hs. part_simpl.
    rewrite E1, E2, E3. clear E1 E2 E3 st1 st2 st3. part_simpl.
    rewrite !OrdSet_delete_add by done.
    rewrite !OrdSet_elem_of_add. intuition.
Qed.

(** ** Include and exclude sets stay disjoint *)

(** The listeners that do not write [state.currentFilters]. *)
Lemma togglePokemon_filters i st :
  App.currentFilters (App.togglePokemon i st) = App.currentFilters st.
Proof. unfold App.togglePokemon. by destruct (JS.has _ _). Qed.

Lemma chooseIdentity_filters i st :
  App.currentFilters (App.chooseIdentity i st) = App.currentFilters st.
Proof. unfold App.chooseIdentity. by destruct (bool_decide _). Qed.

Lemma chooseRandomPokemon_filters rnd st :
  App.currentFilters (App.chooseRandomPokemon rnd st) = App.currentFilters st.
Proof.
  unfold App.chooseRandomPokemon. cbv zeta.
  destruct (Nat.eqb _ 0); [done|].
  destruct (if (0 <=? _)%Z then _ else _); [apply chooseIdentity_filters|done].
Qed.

Lemma clickTypeCount_filters st :
  App.currentFilters (App.clickTypeCount st) =
    App.Filters.set_typeCount
      match App.typeCountState st with
      | App.Both => {["single"]} ∪ ∅
      | App.Single => {["dual"]} ∪ ∅
      | App.Dual => ∅
      end (App.currentFilters st).
Proof. unfold App.clickTypeCount. cbv zeta. by destruct st as [? ? ? ? ? ? ? []]. Qed.

(** One listener keeps the include and exclude set of every facet
    disjoint, provided the type-count exclude set, which no listener
    writes, is empty. *)
Lemma handle_disjoint e st :
  let f := App.currentFilters st in
  let f' := App.currentFilters (App.handle e st) in
  App.Filters.generations f ## App.Filters.notGenerations f ∧
  App.Filters.types f ## App.Filters.notTypes f ∧
  App.Filters.notTypeCount f = ∅ ∧
  App.Filters.evolutionStages f ## App.Filters.notEvolutionStages f ∧
  App.Filters.specialCategories f ## App.Filters.notSpecialCategories f ∧
  App.Filters.colors f ## App.Filters.notColors f →
  App.Filters.generations f' ## App.Filters.notGenerations f' ∧
  App.Filters.types f' ## App.Filters.notTypes f' ∧
  App.Filters.notTypeCount f' = ∅ ∧
  App.Filters.evolutionStages f' ## App.Filters.notEvolutionStages f' ∧
  App.Filters.specialCategories f' ## App.Filters.notSpecialCategories f' ∧
  App.Filters.colors f' ## App.Filters.notColors f'.
Proof.
  cbv zeta. intros (Hg & Ht & Htc & He & Hs & Hc).
  destruct e as [|value|[|v]|t| |[|v]|c|c|l|i|i| |rnd]; cbn [App.handle].
  - repeat split; set_solver.
  - change (App.currentFilters (App.inputName value st))
      with (App.Filters.set_name value (App.currentFilters st)).
    destruct (App.currentFilters st). filters_simpl. done.
  - change (App.currentFilters (App.clickGeneration App.All st))
      with (App.Filters.set_notGenerations ∅
              (App.Filters.set_generations ∅ (App.currentFilters st))).
    destruct (App.currentFilters st). filters_simpl. repeat split; try done; set_solver.
  - rewrite clickGeneration_filters. cbv zeta.
    pose proof (cycle_disjoint v _ _ Hg).
    destruct (App.currentFilters st). filters_simpl. done.
  - destruct (String.eqb_spec t "all") as [->|Hne].
    + change (App.currentFilters (App.clickType "all" st))
        with (App.Filters.set_notTypes ∅ (App.Filters.set_types ∅ (App.currentFilters st))).
      destruct (App.currentFilters st). filters_simpl. repeat split; try done; set_solver.
    + rewrite clickType_filters by done. cbv zeta.
      pose proof (cycle_disjoint t _ _ Ht).
      destruct (App.currentFilters st). filters_simpl. done.
  - rewrite clickTypeCount_filters.
    destruct (App.currentFilters st). filters_simpl. done.
  - change (App.currentFilters (App.clickEvolution App.All st))
      with (App.Filters.set_notEvolutionStages ∅
              (App.Filters.set_evolutionStages ∅ (App.currentFilters st))).
    destruct (App.currentFilters st). filters_simpl. repeat split; try done; set_solver.
  - rewrite clickEvolution_filters. cbv zeta.
    pose proof (cycle_disjoint v _ _ He).
    destruct (App.currentFilters st). filters_simpl. done.
  - rewrite clickSpecial_filters. cbv zeta.
    pose proof (cycle_disjoint c _ _ Hs).
    destruct (App.currentFilters st). filters_simpl. done.
  - rewrite clickColor_filters. cbv zeta.
    pose proof (cycle_disjoint c _ _ Hc).
    destruct (App.currentFilters st). filters_simpl. done.
  - done.
  - rewrite togglePokemon_filters. done.
  - rewrite chooseIdentity_filters. done.
  - done.
  - rewrite chooseRandomPokemon_filters. done.
Qed.

(** C6.  From the initial state, whose filter sets are all empty, after
    any sequence of user actions (tri-state clicks, ['all'] buttons, the
    type-count toggle, name input, reset, and the actions that do not
    touch the filters) no value is in both the include and the exclude
    set of a facet. *)
Theorem include_exclude_disjoint (es : list App.Event) :
  let f := App.currentFilters (App.run es App.state0) in
  App.Filters.generations f ## App.Filters.notGenerations f ∧
  App.Filters.types f ## App.Filters.notTypes f ∧
  App.Filters.typeCount f ## App.Filters.notTypeCount f ∧
  App.Filters.evolutionStages f ## App.Filters.notEvolutionStages f ∧
  App.Filters.specialCategories f ## App.Filters.notSpecialCategories f ∧
  App.Filters.colors f ## App.Filters.notColors f.
Proof.
  cbv zeta.
  assert (Hinv : ∀ st,
    (let f := App.currentFilters st in
     App.Filters.generations f ## App.Filters.notGenerations f ∧
     App.Filters.types f ## App.Filters.notTypes f ∧
     App.Filters.notTypeCount f = ∅ ∧
     App.Filters.evolutionStages f ## App.Filters.notEvolutionStages f ∧
     App.Filters.specialCategories f ## App.Filters.notSpecialCategories f ∧
     App.Filters.colors f ## App.Filters.notColors f) →
    (let f := App.currentFilters (App.run es st) in
     App.Filters.generations f ## App.Filters.notGenerations f ∧
     App.Filters.types f ## App.Filters.notTypes f ∧
     App.Filters.notTypeCount f = ∅ ∧
     App.Filters.evolutionStages f ## App.Filters.notEvolutionStages f ∧
     App.Filters.specialCategories f ## App.Filters.notSpecialCategories f ∧
     App.Filters.colors f ## App.Filters.notColors f)).
  { induction es as [|e es IH]; intros st Hst; [exact Hst|].
    apply (IH (App.handle e st)), (handle_disjoint e st), Hst. }
  destruct (Hinv App.state0) as (Hg & Ht & Htc & He & Hs & Hc).
  { cbv zeta. change (App.currentFilters App.state0) with App.Filters.empty.
    filters_simpl. split_and!; (reflexivity || apply disjoint_empty_l). }
  split_and!; try assumption. rewrite Htc. apply disjoint_empty_r.
Qed.

(** ** Random choice *)

(** [Math.floor(Math.random() * n)] is an index of an array of length [n]:
    [Math.random()] is in the interval from 0 (included) to 1 (excluded). *)
Lemma randomIndex_range (rnd : Q) (n : nat) :
  (0 <= rnd)%Q → (rnd < 1)%Q → (0 < n)%nat →
  (0 <= App.randomIndex rnd n < Z.of_nat n)%Z.
Proof.
  intros Hlo Hhi Hn. unfold App.randomIndex.
  assert (Hpos : (0 < inject_Z (Z.of_nat n))%Q).
  { change 0%Q with (inject_Z 0). rewrite <- Zlt_Qlt. lia. }
  split.
  - change 0%Z with (Qfloor 0). apply Qfloor_resp_le.
    apply Qmult_le_0_compat; [exact Hlo|]. by apply Qlt_le_weak.
  - rewrite Zlt_Qlt. eapply Qle_lt_trans; [apply Qfloor_le|].
    eapply Qlt_le_trans; [apply Qmult_lt_compat_r; [exact Hpos|exact Hhi]|].
    rewrite Qmult_1_l. apply Qle_refl.
Qed.

(** C5.  With [Math.random()] in its range, [chooseRandomPokemon] does
    nothing when every displayed record is disabled; otherwise it acts as
    [chooseIdentity] on the id of some displayed record that is not
    disabled (so it un-chooses that id when it is the chosen one); and
    when all such records share one id, it is [chooseIdentity] of that
    id. *)
Theorem chooseRandom_draws_eligible (rnd : Q) (st : App.State) :
  (0 <= rnd)%Q → (rnd < 1)%Q →
  let eligible (p : App.Pokemon.t) :=
    In p (App.displayedPokemon st) ∧ App.Pokemon.id p ∉ App.disabledPokemon st in
  ((∀ p, ¬ eligible p) → App.chooseRandomPokemon rnd st = st) ∧
  ((∃ p, eligible p) →
     ∃ p, eligible p ∧
       App.chooseRandomPokemon rnd st = App.chooseIdentity (App.Pokemon.id p) st ∧
       App.chosenPokemonId (App.chooseRandomPokemon rnd st) =
         if bool_decide (App.chosenPokemonId st = Some (App.Pokemon.id p))
         then None else Some (App.Pokemon.id p)) ∧
  (∀ i, (∃ p, eligible p) → (∀ p, eligible p → App.Pokemon.id p = i) →
     App.chooseRandomPokemon rnd st = App.chooseIdentity i st).
Proof.
  intros Hlo Hhi eligible.
  set (availablePokemon :=
         List.filter (λ pokemon, negb (JS.has (App.disabledPokemon st) (App.Pokemon.id pokemon)))
                     (App.displayedPokemon st)).
  assert (Hav : ∀ p, In p availablePokemon ↔ eligible p).
  { intros p. unfold availablePokemon, eligible.
    by rewrite filter_In, negb_true_iff, has_false. }
  assert (Hdraw : (∃ p, eligible p) →
            ∃ p, eligible p ∧
                 App.chooseRandomPokemon rnd st = App.chooseIdentity (App.Pokemon.id p) st).
  { intros [q Hq]. apply Hav in Hq.
    unfold App.chooseRandomPokemon. cbv zeta. fold availablePokemon.
    destruct availablePokemon as [|a l] eqn:Ea; [destruct Hq|]. rewrite <- Ea in *.
    assert (Hlen : (0 < length availablePokemon)%nat) by (rewrite Ea; simpl; lia).
    destruct (Nat.eqb_spec (length availablePokemon) 0) as [Hz|_]; [lia|].
    destruct (randomIndex_range rnd (length availablePokemon) Hlo Hhi Hlen) as [H0 Hn].
    apply Z.leb_le in H0 as ->.
    destruct (lookup_lt_is_Some_2 availablePokemon
                (Z.to_nat (App.randomIndex rnd (length availablePokemon)))) as [p Hp]; [lia|].
    rewrite Hp. exists p. split; [|reflexivity].
    apply Hav, list_elem_of_In. by eapply list_elem_of_lookup_2. }
  split; [|split].
  - intros Hnone. unfold App.chooseRandomPokemon. cbv zeta. fold availablePokemon.
    destruct availablePokemon as [|a l] eqn:Ea; [reflexivity|].
    destruct (Hnone a). apply Hav. by left.
  - intros Hex. destruct (Hdraw Hex) as (p & Hp & Heq). exists p.
    split; [exact Hp|]. split; [exact Heq|]. rewrite Heq.
    unfold App.chooseIdentity. by destruct (bool_decide _).
  - intros i Hex Hall. destruct (Hdraw Hex) as (p & Hp & Heq).
    by rewrite Heq, (Hall p Hp).
Qed.

Lemma chooseRandom_draws_eligible_witness :
  ((0 <= 1 # 2)%Q ∧ (1 # 2 < 1)%Q) ∧
  App.chooseRandomPokemon (1 # 2) Examples.oneLeft = App.chooseIdentity 4 Examples.oneLeft.
Proof.
  assert (Hlo : (0 <= 1 # 2)%Q) by discriminate.
  assert (Hhi : (1 # 2 < 1)%Q) by reflexivity.
  split; [by split|].
  destruct (chooseRandom_draws_eligible (1 # 2) Examples.oneLeft Hlo Hhi) as (_ & _ & Hone).
  apply Hone.
  - exists Examples.charmander. split; [by left|].
    change (4 ∉ ({[6; 7]} : gset Z)). set_solver.
  - intros p [Hin Hd]. change (App.Pokemon.id p ∉ ({[6; 7]} : gset Z)) in Hd.
    destruct Hin as [<-|[<-|[<-|[]]]]; [reflexivity|exfalso|exfalso]; apply Hd.
    + change (6 ∈ ({[6; 7]} : gset Z)). set_solver.
    + change (7 ∈ ({[6; 7]} : gset Z)). set_solver.
Defined.

(** ** The generation mode switch of the earlier revision *)

Lemma OrdSet_add_clear g : Part000.OrdSet.add g Part000.OrdSet.clear = [g].
Proof.
  unfold Part000.OrdSet.add, Part000.OrdSet.clear.
  assert (Hg : Part000.OrdSet.has [] g = false) by (apply OrdSet_has_false, not_elem_of_nil).
  by rewrite Hg.
Qed.

Lemma truthyOpt_head_nonzero (s : Part000.OrdSet.t) g :
  head s = Some g → g ≠ 0 → JS.truthyOpt (Part000.OrdSet.first s) = Some g.
Proof.
  intros Hh Hg. unfold Part000.OrdSet.first, JS.truthyOpt, JS.truthyNum. rewrite Hh.
  apply Z.eqb_neq in Hg. by rewrite Hg.
Qed.

(** C9.  Switching the generation facet from multiple to single mode
    while more than one value is selected (included and excluded values
    counted together) leaves at most one value selected.  The value kept
    is the first inserted element of the include set when there is one;
    only when the include set is empty is it the first inserted element
    of the exclude set.  Generation numbers are non-zero. *)
Theorem mode_switch_collapse (st : Part000.State) :
  let f := Part000.currentFilters st in
  let f' := Part000.currentFilters (Part000.genModeToggle st) in
  Part000.Filters.generationMode f = Part000.multiple →
  (1 < Part000.OrdSet.size (Part000.Filters.generations f)
       + Part000.OrdSet.size (Part000.Filters.notGenerations f))%nat →
  Part000.Filters.generationMode f' = Part000.single ∧
  (Part000.OrdSet.size (Part000.Filters.generations f')
     + Part000.OrdSet.size (Part000.Filters.notGenerations f') ≤ 1)%nat ∧
  (∀ g, head (Part000.Filters.generations f) = Some g → g ≠ 0 →
     Part000.Filters.generations f' = [g] ∧ Part000.Filters.notGenerations f' = []) ∧
  (∀ n, Part000.Filters.generations f = [] →
     head (Part000.Filters.notGenerations f) = Some n → n ≠ 0 →
     Part000.Filters.generations f' = [] ∧ Part000.Filters.notGenerations f' = [n]).
Proof.
  intros f f' Hm Hsize.
  assert (Ef' : f' =
    let st1 := Part000.updFilters (Part000.Filters.set_generationMode Part000.single) st in
    let st2 := Part000.updFilters (Part000.Filters.set_generations Part000.OrdSet.clear) st1 in
    let st3 := Part000.updFilters (Part000.Filters.set_notGenerations Part000.OrdSet.clear) st2 in
    Part000.currentFilters
      match JS.truthyOpt (Part000.OrdSet.first (Part000.Filters.generations f)),
            JS.truthyOpt (Part000.OrdSet.first (Part000.Filters.notGenerations f)) with
      | Some g, _ =>
          Part000.updFilters
            (λ f, Part000.Filters.set_generations
                    (Part000.OrdSet.add g (Part000.Filters.generations f)) f) st3
      | None, Some n =>
          Part000.updFilters
            (λ f, Part000.Filters.set_notGenerations
                    (Part000.OrdSet.add n (Part000.Filters.notGenerations f)) f) st3
      | None, None => st3
      end).
  { unfold f', Part000.genModeToggle. cbv zeta. fold f. rewrite Hm.
    apply Nat.ltb_lt in Hsize. rewrite Hsize. reflexivity. }
  cbv zeta in Ef'. rewrite Ef'. clear Ef' f'.
  split; [|split; [|split]].
  - destruct (JS.truthyOpt _); [reflexivity|]. by destruct (JS.truthyOpt _).
  - destruct (JS.truthyOpt _) as [g|].
    + cbn [Part000.currentFilters Part000.updFilters Part000.set_currentFilters].
      part_simpl. rewrite OrdSet_add_clear. simpl. lia.
    + destruct (JS.truthyOpt _) as [n|].
      * cbn [Part000.currentFilters Part000.updFilters Part000.set_currentFilters].
        part_simpl. rewrite OrdSet_add_clear. simpl. lia.
      * simpl. lia.
  - intros g Hh Hg. rewrite (truthyOpt_head_nonzero _ g Hh Hg).
    cbn [Part000.currentFilters Part000.updFilters Part000.set_currentFilters].
    part_simpl. by rewrite OrdSet_add_clear.
  - intros n He Hh Hn. rewrite He. cbn [Part000.OrdSet.first head JS.truthyOpt].
    rewrite (truthyOpt_head_nonzero _ n Hh Hn).
    cbn [Part000.currentFilters Part000.updFilters Part000.set_currentFilters].
    part_simpl. by rewrite OrdSet_add_clear.
Qed.

Lemma mode_switch_collapse_witness :
  Part000.Filters.generations (Part000.currentFilters (Part000.genModeToggle Examples.multiSelected))
    = [2] ∧
  Part000.Filters.notGenerations
    (Part000.currentFilters (Part000.genModeToggle Examples.multiSelected)) = [].
Proof.
  assert (Hsize : (1 < 2 + 1)%nat) by lia.
  destruct (mode_switch_collapse Examples.multiSelected eq_refl Hsize) as (_ & _ & Hfirst & _).
  apply (Hfirst 2); [reflexivity|discriminate].
Defined.

(** ** Ingestion *)

Section IngestionProperties.

Context (src : App.Source.t).

(** [fetchPokemonDetails] never throws and never writes [state]; what it
    resolves to depends on [state] through [generationMap] only. *)
Lemma fetchPokemonDetails_run ref w :
  App.fetchPokemonDetails src ref w =
    (Some (Run.details src (App.generationMap (App.state w)) ref),
     App.mkWorld (App.state w) (App.requests w ++ Run.detailRequests src ref)).
Proof.
  unfold Run.details, Run.detailRequests, App.fetchPokemonDetails, App.speciesBlock.
  unfold App.tryCatch, mbind, App.Async_bind, App.bind, App.request, App.getState,
    mret, App.Async_ret, App.ret.
  cbn [App.state App.requests].
  destruct (App.Source.pokemon src (App.PokemonRef.url ref)) as [data|]; [|done].
  destruct (App.Source.species src (App.PokemonData.species_url data)) as [sd|];
    [|by rewrite <- !app_assoc].
  destruct (App.SpeciesData.evolves_from_species sd) as [prevUrl|];
    [|by rewrite <- !app_assoc].
  cbn [App.state App.requests].
  destruct (App.Source.species src prevUrl) as [psd|]; [|by rewrite <- !app_assoc].
  destruct (App.SpeciesData.evolves_from_species psd); by rewrite <- !app_assoc.
Qed.

Lemma bind_run {A B} (m : App.Async A) (k : A → App.Async B) w :
  (m ≫= k) w = match m w with
               | (Some a, w') => k a w'
               | (None, w') => (None, w')
               end.
Proof. reflexivity. Qed.

(** A batch: [Promise.all] over [fetchPokemonDetails]. *)
Lemma mapM_fetchPokemonDetails batch w :
  App.mapM (App.fetchPokemonDetails src) batch w =
    (Some (map (Run.details src (App.generationMap (App.state w))) batch),
     App.mkWorld (App.state w)
                 (App.requests w ++ concat (map (Run.detailRequests src) batch))).
Proof.
  revert w. induction batch as [|ref batch IH]; intros w.
  - destruct w. cbn. by rewrite app_nil_r.
  - cbn [App.mapM map concat]. rewrite bind_run, fetchPokemonDetails_run.
    rewrite bind_run, IH. cbn [App.state App.requests].
    unfold mret, App.Async_ret, App.ret. by rewrite <- app_assoc.
Qed.

(** The batches cover the filtered list, in order. *)
Lemma createBatches_concat {A} (l : list A) fuel i :
  (length l - i <= fuel)%nat → concat (App.createBatches fuel i l) = drop i l.
Proof.
  revert i. induction fuel as [|fuel IH]; intros i Hfuel; cbn [App.createBatches].
  - rewrite drop_ge by lia. reflexivity.
  - destruct (Nat.ltb_spec i (length l)) as [Hlt|Hge].
    + cbn [concat]. rewrite IH by (unfold App.BATCH_SIZE; lia).
      unfold App.slice. replace (i + App.BATCH_SIZE - i)%nat with App.BATCH_SIZE by lia.
      rewrite <- drop_drop. apply take_drop.
    + rewrite drop_ge by lia. reflexivity.
Qed.

Lemma createBatches_length {A} (l : list A) fuel i batch :
  In batch (App.createBatches fuel i l) → (0 < length batch <= App.BATCH_SIZE)%nat.
Proof.
  revert i. induction fuel as [|fuel IH]; intros i; cbn [App.createBatches]; [done|].
  destruct (Nat.ltb_spec i (length l)) as [Hlt|Hge]; [|done].
  intros [<-|Hin]; [|by eapply IH].
  unfold App.slice. rewrite length_take, length_drop. unfold App.BATCH_SIZE. lia.
Qed.

(** The loop over the batches appends to [state.allPokemon] the records
    of the references, in the order of the list, without the [null]s. *)
Lemma batches_run (batches : list (list App.PokemonRef.t)) w :
  App.forEachM (λ batch,
      batchResults ← App.mapM (App.fetchPokemonDetails src) batch;
      App.modifyState (λ st,
        App.set_allPokemon (App.allPokemon st ++ omap id batchResults) st))
    batches w =
  (Some tt,
   App.mkWorld
     (App.set_allPokemon
        (App.allPokemon (App.state w)
           ++ omap id (map (Run.details src (App.generationMap (App.state w)))
                           (concat batches)))
        (App.state w))
     (App.requests w ++ concat (map (Run.detailRequests src) (concat batches)))).
Proof.
  revert w. induction batches as [|batch batches IH]; intros w.
  - destruct w as [[] ?]. cbn. by rewrite !app_nil_r.
  - cbn [App.forEachM concat]. rewrite bind_run, bind_run, mapM_fetchPokemonDetails.
    unfold App.modifyState at 1. cbn [App.state App.requests]. rewrite IH.
    cbn [App.state App.requests App.allPokemon App.generationMap App.set_allPokemon].
    rewrite map_app, omap_app, map_app, concat_app, <- !app_assoc. reflexivity.
Qed.

Lemma fetchPokemonDetailsBatch_run pokemonList w :
  App.fetchPokemonDetailsBatch src pokemonList w =
  (Some tt,
   App.mkWorld
     (App.set_allPokemon
        (App.allPokemon (App.state w)
           ++ omap id (map (Run.details src (App.generationMap (App.state w)))
                           (List.filter App.withinMax pokemonList)))
        (App.state w))
     (App.requests w
        ++ concat (map (Run.detailRequests src) (List.filter App.withinMax pokemonList)))).
Proof.
  unfold App.fetchPokemonDetailsBatch. cbv zeta. rewrite batches_run.
  rewrite createBatches_concat by lia. by rewrite drop_0.
Qed.

(** The generation handlers never throw; they write [generationMap] and
    nothing else: a handler whose response arrived adds its species, a
    handler whose request failed adds nothing. *)
Lemma generationHandler_run i w :
  App.generationHandler src i w =
    (Some tt,
     App.mkWorld
       (App.set_generationMap
          match App.Source.generation src i with
          | Some pokemon_species =>
              fold_left (λ (m : gmap string Z) species, <[species := i]> m)
                        pokemon_species (App.generationMap (App.state w))
          | None => App.generationMap (App.state w)
          end
          (App.state w))
       (App.requests w)).
Proof.
  unfold App.generationHandler.
  destruct (App.Source.generation src i) as [pokemon_species|].
  - revert w. induction pokemon_species as [|species l IH]; intros w.
    + by destruct w as [[] ?].
    + cbn [App.forEachM fold_left]. rewrite bind_run. unfold App.modifyState at 1.
      by rewrite IH.
  - by destruct w as [[] ?].
Qed.

Lemma generationHandlers_run order w :
  App.forEachM (App.generationHandler src) order w =
    (Some tt,
     App.mkWorld
       (App.set_generationMap
          (fold_left
             (λ (m : gmap string Z) i,
                match App.Source.generation src i with
                | Some pokemon_species =>
                    fold_left (λ (m : gmap string Z) species, <[species := i]> m)
                              pokemon_species m
                | None => m
                end)
             order (App.generationMap (App.state w)))
          (App.state w))
       (App.requests w)).
Proof.
  revert w. induction order as [|i order IH]; intros w.
  - by destruct w as [[] ?].
  - cbn [App.forEachM fold_left]. rewrite bind_run, generationHandler_run. by rewrite IH.
Qed.

Lemma generationRequests_run (l : list Z) w :
  App.forEachM (λ i, App.request (App.GetGeneration i) (Some tt)) l w =
    (Some tt, App.mkWorld (App.state w) (App.requests w ++ map App.GetGeneration l)).
Proof.
  revert w. induction l as [|i l IH]; intros w.
  - destruct w. cbn. by rewrite app_nil_r.
  - cbn [App.forEachM]. rewrite bind_run. unfold App.request at 1. rewrite IH.
    cbn [App.state App.requests map]. by rewrite <- app_assoc.
Qed.

Lemma fetchGenerationMappings_run order w :
  ∃ gm, App.fetchGenerationMappings src order w =
          (Some tt,
           App.mkWorld (App.set_generationMap gm (App.state w))
                       (App.requests w ++ map App.GetGeneration (seqZ 1 9))).
Proof.
  unfold App.fetchGenerationMappings.
  rewrite bind_run, generationRequests_run, generationHandlers_run. by eexists.
Qed.

Lemma fetchGenerationMappings_load order :
  App.fetchGenerationMappings src order (App.mkWorld App.state0 []) =
    (Some tt,
     App.mkWorld (App.set_generationMap (Run.generationMapAfter src order) App.state0)
                 (map App.GetGeneration (seqZ 1 9))).
Proof.
  unfold Run.generationMapAfter.
  destruct (fetchGenerationMappings_run order (App.mkWorld App.state0 [])) as [gm ->].
  reflexivity.
Qed.

(** The index after the handlers have run, as a fold over the arrival
    order. *)
Lemma generationMapAfter_fold order :
  Run.generationMapAfter src order =
    fold_left
      (λ (m : gmap string Z) i,
         match App.Source.generation src i with
         | Some pokemon_species =>
             fold_left (λ (m : gmap string Z) species, <[species := i]> m) pokemon_species m
         | None => m
         end)
      order ∅.
Proof.
  unfold Run.generationMapAfter, App.fetchGenerationMappings.
  rewrite bind_run, generationRequests_run, generationHandlers_run. reflexivity.
Qed.

(** Every entry of the index comes from a response that arrived. *)
Lemma generationMapAfter_entries order name g :
  Run.generationMapAfter src order !! name = Some g →
  In g order ∧ ∃ pokemon_species,
    App.Source.generation src g = Some pokemon_species ∧ In name pokemon_species.
Proof.
  rewrite generationMapAfter_fold.
  assert (Hinner : ∀ i l (m : gmap string Z),
            fold_left (λ (m : gmap string Z) species, <[species := i]> m) l m !! name = Some g →
            m !! name = Some g ∨ (g = i ∧ In name l)).
  { intros i l. induction l as [|sp l IH]; intros m; cbn [fold_left]; [by left|].
    intros Hm. apply IH in Hm as [Hm|[-> Hin]]; [|right; split; [done|by right]].
    destruct (decide (sp = name)) as [->|Hne].
    - rewrite lookup_insert_eq in Hm. injection Hm as <-. right. split; [done|by left].
    - rewrite lookup_insert_ne in Hm by done. by left. }
  assert (Houter : ∀ (m : gmap string Z),
            fold_left
              (λ (m : gmap string Z) i,
                 match App.Source.generation src i with
                 | Some pokemon_species =>
                     fold_left (λ (m : gmap string Z) species, <[species := i]> m)
                               pokemon_species m
                 | None => m
                 end) order m !! name = Some g →
            m !! name = Some g ∨
            (In g order ∧ ∃ pokemon_species,
               App.Source.generation src g = Some pokemon_species ∧ In name pokemon_species)).
  { induction order as [|i order IH]; intros m; cbn [fold_left]; [by left|].
    intros Hm. apply IH in Hm as [Hm|(Hin & l & Hl & Hn)].
    - destruct (App.Source.generation src i) as [l|] eqn:Hl; [|by left].
      apply Hinner in Hm as [Hm|[-> Hin]]; [by left|].
      right. split; [by left|]. by exists l.
    - right. split; [by right|]. by exists l. }
  intros Hm. apply Houter in Hm as [Hm|Hm]; [|exact Hm].
  by rewrite lookup_empty in Hm.
Qed.

(** The page load, end to end. *)
Lemma load_run order savedLanguage :
  App.load src order savedLanguage =
    let gm := Run.generationMapAfter src order in
    let gens := map App.GetGeneration (seqZ 1 9) in
    match App.Source.pokemonList src with
    | None =>
        (Some App.LoadError,
         App.mkWorld (App.set_generationMap gm App.state0) (gens ++ [App.GetPokemonList]))
    | Some pokemonList =>
        let kept := List.filter App.withinMax pokemonList in
        let sorted := App.sortById (omap id (map (Run.details src gm) kept)) in
        (Some App.Ready,
         App.mkWorld
           (App.mkState sorted sorted ∅ None (default "en" (JS.orStr savedLanguage None)) gm
                        App.Filters.empty App.Both)
           (gens ++ [App.GetPokemonList] ++ concat (map (Run.detailRequests src) kept)))
    end.
Proof.
  unfold App.load, App.init, App.tryCatch. cbv zeta.
  rewrite bind_run, fetchGenerationMappings_load.
  rewrite bind_run. unfold App.fetchPokemonList. rewrite bind_run. unfold App.request at 1.
  cbn [App.state App.requests].
  destruct (App.Source.pokemonList src) as [pokemonList|]; [|reflexivity].
  unfold App.ret at 1. cbv beta iota.
  rewrite bind_run, fetchPokemonDetailsBatch_run. reflexivity.
Qed.

(** *** What one reference resolves to *)

Lemma details_failed gm ref :
  App.Source.pokemon src (App.PokemonRef.url ref) = None → Run.details src gm ref = None.
Proof.
  intros Hp. unfold Run.details, App.fetchPokemonDetails, App.tryCatch.
  rewrite bind_run. unfold App.request at 1. by rewrite Hp.
Qed.

(** When the detail request succeeds a record is built whatever the
    species requests do: they only decide the locals. *)
Lemma details_fetched gm ref data :
  App.Source.pokemon src (App.PokemonRef.url ref) = Some data →
  Run.details src gm ref =
    let loc :=
      match App.Source.species src (App.PokemonData.species_url data) with
      | Some speciesData =>
          match App.SpeciesData.evolves_from_species speciesData with
          | Some prevUrl =>
              match App.Source.species src prevUrl with
              | Some prevSpeciesData =>
                  match App.SpeciesData.evolves_from_species prevSpeciesData with
                  | Some _ => App.set_evolutionStage 3 (App.afterSpecies speciesData)
                  | None => App.set_evolutionStage 2 (App.afterSpecies speciesData)
                  end
              | None => App.afterSpecies speciesData
              end
          | None => App.afterSpecies speciesData
          end
      | None => App.locals0
      end in
    Some (App.Pokemon.mk
            (App.PokemonData.id data) (App.PokemonData.name data) (App.names loc)
            (App.chooseSprite data) (App.PokemonData.types data)
            (App.generationOf gm (App.PokemonData.species_name data))
            (App.evolutionStage loc) (App.isBaby loc) (App.isLegendary loc)
            (App.isMythical loc) (App.color loc)).
Proof.
  intros Hp. unfold Run.details, App.fetchPokemonDetails, App.speciesBlock, App.tryCatch.
  rewrite bind_run. unfold App.request at 1. rewrite Hp.
  rewrite bind_run, bind_run. unfold App.request at 1.
  destruct (App.Source.species src (App.PokemonData.species_url data)) as [sd|]; [|done].
  destruct (App.SpeciesData.evolves_from_species sd) as [prevUrl|]; [|done].
  rewrite bind_run. unfold App.request at 1.
  destruct (App.Source.species src prevUrl) as [psd|]; [|done].
  by destruct (App.SpeciesData.evolves_from_species psd).
Qed.

(** *** The sort *)

Lemma In_insertById p q l : In q (App.insertById p l) ↔ q = p ∨ In q l.
Proof.
  induction l as [|r l IH]; cbn [App.insertById].
  - simpl. intuition.
  - destruct (App.Pokemon.id p <=? App.Pokemon.id r)%Z; simpl; rewrite ?IH; intuition.
Qed.

Lemma In_sortById q l : In q (App.sortById l) ↔ In q l.
Proof.
  unfold App.sortById. induction l as [|p l IH]; [done|].
  cbn [fold_right]. rewrite In_insertById, IH. simpl. intuition.
Qed.

Lemma insertById_Permutation p l : Permutation (App.insertById p l) (p :: l).
Proof.
  induction l as [|r l IH]; cbn [App.insertById]; [done|].
  destruct (App.Pokemon.id p <=? App.Pokemon.id r)%Z; [done|].
  rewrite IH. apply perm_swap.
Qed.

Lemma sortById_Permutation l : Permutation (App.sortById l) l.
Proof.
  unfold App.sortById. induction l as [|p l IH]; [done|].
  cbn [fold_right]. by rewrite insertById_Permutation, IH.
Qed.

Lemma insertById_sorted p l :
  StronglySorted (λ a b, (App.Pokemon.id a <= App.Pokemon.id b)%Z) l →
  StronglySorted (λ a b, (App.Pokemon.id a <= App.Pokemon.id b)%Z) (App.insertById p l).
Proof.
  induction 1 as [|r l Hs IH Hr]; cbn [App.insertById].
  - repeat constructor.
  - destruct (Z.leb_spec (App.Pokemon.id p) (App.Pokemon.id r)) as [Hle|Hgt].
    + constructor; [by constructor|].
      constructor; [exact Hle|].
      eapply Forall_impl; [exact Hr|]. intros a Ha. simpl in *. lia.
    + constructor; [exact IH|].
      apply List.Forall_forall. intros a Ha. apply In_insertById in Ha as [->|Ha]; [lia|].
      by eapply List.Forall_forall in Hr.
Qed.

Lemma sortById_sorted l :
  StronglySorted (λ a b, (App.Pokemon.id a <= App.Pokemon.id b)%Z) (App.sortById l).
Proof.
  unfold App.sortById. induction l as [|p l IH]; cbn [fold_right]; [constructor|].
  by apply insertById_sorted.
Qed.

(** *** The catalog *)

Lemma catalog_loaded order savedLanguage pokemonList :
  App.Source.pokemonList src = Some pokemonList →
  Run.catalog src order savedLanguage =
    App.sortById
      (omap id (map (Run.details src (Run.generationMapAfter src order))
                    (List.filter App.withinMax pokemonList))).
Proof. intros Hl. unfold Run.catalog. rewrite load_run, Hl. reflexivity. Qed.

(** A record is in the catalog exactly when some reference of the list
    passes the id filter and resolves to it. *)
Lemma In_catalog order savedLanguage pokemonList p :
  App.Source.pokemonList src = Some pokemonList →
  In p (Run.catalog src order savedLanguage) ↔
    ∃ ref, In ref pokemonList ∧ App.withinMax ref = true ∧
           Run.details src (Run.generationMapAfter src order) ref = Some p.
Proof.
  intros Hl. rewrite (catalog_loaded _ _ _ Hl), In_sortById, <- list_elem_of_In.
  rewrite list_elem_of_omap. split.
  - intros (r & Hr & Hid). apply list_elem_of_fmap in Hr as (ref & -> & Href).
    apply list_elem_of_In, filter_In in Href as [Hin Hmax]. by exists ref.
  - intros (ref & Hin & Hmax & Hd). exists (Some p). split; [|done].
    apply list_elem_of_fmap. exists ref. split; [done|].
    by apply list_elem_of_In, filter_In.
Qed.

(** C3.  Every record of the catalog has evolution stage 1, 2 or 3.  The
    stage is read off at most two species records: 1 when the record's
    species has no predecessor, 2 when it has one and the predecessor's
    species has none, 3 when the predecessor's species has one too,
    whatever lies further up the chain (and 1 when a species request
    fails). *)
Theorem evolution_stage_depth order savedLanguage pokemonList p :
  App.Source.pokemonList src = Some pokemonList →
  In p (Run.catalog src order savedLanguage) →
  (App.Pokemon.evolutionStage p = 1 ∨ App.Pokemon.evolutionStage p = 2 ∨
   App.Pokemon.evolutionStage p = 3) ∧
  ∃ ref data,
    In ref pokemonList ∧
    App.Source.pokemon src (App.PokemonRef.url ref) = Some data ∧
    App.Pokemon.id p = App.PokemonData.id data ∧
    App.Pokemon.name p = App.PokemonData.name data ∧
    App.Pokemon.evolutionStage p =
      match App.Source.species src (App.PokemonData.species_url data) with
      | Some speciesData =>
          match App.SpeciesData.evolves_from_species speciesData with
          | Some prevUrl =>
              match App.Source.species src prevUrl with
              | Some prevSpeciesData =>
                  match App.SpeciesData.evolves_from_species prevSpeciesData with
                  | Some _ => 3
                  | None => 2
                  end
              | None => 1
              end
          | None => 1
          end
      | None => 1
      end.
Proof.
  intros Hl Hin. apply (In_catalog _ _ _ _ Hl) in Hin as (ref & Hin & _ & Hd).
  destruct (App.Source.pokemon src (App.PokemonRef.url ref)) as [data|] eqn:Hp;
    [|by rewrite details_failed in Hd].
  rewrite (details_fetched _ _ _ Hp) in Hd. cbv zeta in Hd.
  injection Hd as <-. cbn [App.Pokemon.evolutionStage App.Pokemon.id App.Pokemon.name].
  assert (Hstage : ∀ P : Z → Prop, P 1 → P 2 → P 3 →
            P (App.evolutionStage
                 match App.Source.species src (App.PokemonData.species_url data) with
                 | Some speciesData =>
                     match App.SpeciesData.evolves_from_species speciesData with
                     | Some prevUrl =>
                         match App.Source.species src prevUrl with
                         | Some prevSpeciesData =>
                             match App.SpeciesData.evolves_from_species prevSpeciesData with
                             | Some _ => App.set_evolutionStage 3 (App.afterSpecies speciesData)
                             | None => App.set_evolutionStage 2 (App.afterSpecies speciesData)
                             end
                         | None => App.afterSpecies speciesData
                         end
                     | None => App.afterSpecies speciesData
                     end
                 | None => App.locals0
                 end)).
  { intros P H1 H2 H3.
    destruct (App.Source.species src _) as [sd|]; [|exact H1].
    destruct (App.SpeciesData.evolves_from_species sd) as [prevUrl|]; [|exact H1].
    destruct (App.Source.species src prevUrl) as [psd|]; [|exact H1].
    destruct (App.SpeciesData.evolves_from_species psd); [exact H3|exact H2]. }
  split.
  - apply Hstage; auto.
  - exists ref, data. split; [exact Hin|]. split; [exact Hp|].
    split; [reflexivity|]. split; [reflexivity|].
    destruct (App.Source.species src _) as [sd|]; [|reflexivity].
    destruct (App.SpeciesData.evolves_from_species sd) as [prevUrl|]; [|reflexivity].
    destruct (App.Source.species src prevUrl) as [psd|]; [|reflexivity].
    by destruct (App.SpeciesData.evolves_from_species psd).
Qed.

(** The only detail request of a reference is for its own url. *)
Lemma detailRequests_pokemon ref url :
  In (App.GetPokemon url) (Run.detailRequests src ref) → url = App.PokemonRef.url ref.
Proof.
  unfold Run.detailRequests. rewrite fetchPokemonDetails_run. cbn [App.requests snd app].
  unfold Run.detailRequests, App.fetchPokemonDetails, App.speciesBlock, App.tryCatch.
  rewrite bind_run. unfold App.request at 1.
  destruct (App.Source.pokemon src (App.PokemonRef.url ref)) as [data|];
    [|cbn; intros [[= ->]|[]]; done].
  rewrite bind_run, bind_run. unfold App.request at 1.
  destruct (App.Source.species src (App.PokemonData.species_url data)) as [sd|];
    [|cbn; intros [[= ->]|[[=]|[]]]; done].
  destruct (App.SpeciesData.evolves_from_species sd) as [prevUrl|];
    [|cbn; intros [[= ->]|[[=]|[]]]; done].
  rewrite bind_run. unfold App.request at 1.
  destruct (App.Source.species src prevUrl) as [psd|];
    [|cbn; intros [[= ->]|[[=]|[[=]|[]]]]; done].
  destruct (App.SpeciesData.evolves_from_species psd);
    cbn; intros [[= ->]|[[=]|[[=]|[]]]]; done.
Qed.

(** C4.  When the reference list is fetched, the catalog is sorted by
    ascending id and holds exactly the records fetched for the listed
    references whose url-encoded id is at most [MAX_POKEMON_ID]: it is a
    permutation of them, every record comes from such a reference, and
    every such reference whose detail request succeeds has its record in
    it.  The references beyond the bound are filtered out before any
    detail request: the request log has detail requests for references
    within the bound only.  The id of a record is the one the detail
    response carries, which the filter does not look at: it is at most
    [MAX_POKEMON_ID] when the service answers a detail request with the
    id its url encodes. *)
Theorem catalog_sorted_and_filtered order savedLanguage pokemonList :
  App.Source.pokemonList src = Some pokemonList →
  let catalog := Run.catalog src order savedLanguage in
  StronglySorted (λ a b, (App.Pokemon.id a <= App.Pokemon.id b)%Z) catalog ∧
  Permutation catalog
    (omap id (map (Run.details src (Run.generationMapAfter src order))
                  (List.filter App.withinMax pokemonList))) ∧
  (∀ p, In p catalog →
     ∃ ref data pokemonId,
       In ref pokemonList ∧
       App.encodedId (App.PokemonRef.url ref) = Some pokemonId ∧
       (pokemonId <= App.MAX_POKEMON_ID)%Z ∧
       App.Source.pokemon src (App.PokemonRef.url ref) = Some data ∧
       App.Pokemon.id p = App.PokemonData.id data) ∧
  (∀ ref data pokemonId,
     In ref pokemonList →
     App.encodedId (App.PokemonRef.url ref) = Some pokemonId →
     (pokemonId <= App.MAX_POKEMON_ID)%Z →
     App.Source.pokemon src (App.PokemonRef.url ref) = Some data →
     ∃ p, In p catalog ∧ App.Pokemon.id p = App.PokemonData.id data ∧
          App.Pokemon.name p = App.PokemonData.name data) ∧
  (∀ url, In (App.GetPokemon url) (Run.requestLog src order savedLanguage) →
     ∃ ref pokemonId,
       In ref pokemonList ∧ App.PokemonRef.url ref = url ∧
       App.encodedId url = Some pokemonId ∧ (pokemonId <= App.MAX_POKEMON_ID)%Z) ∧
  ((∀ ref data,
      In ref pokemonList →
      App.Source.pokemon src (App.PokemonRef.url ref) = Some data →
      App.encodedId (App.PokemonRef.url ref) = Some (App.PokemonData.id data)) →
   ∀ p, In p catalog → (App.Pokemon.id p <= App.MAX_POKEMON_ID)%Z).
Proof.
  intros Hl. cbv zeta.
  assert (Hfrom : ∀ p, In p (Run.catalog src order savedLanguage) →
            ∃ ref data pokemonId,
              In ref pokemonList ∧
              App.encodedId (App.PokemonRef.url ref) = Some pokemonId ∧
              (pokemonId <= App.MAX_POKEMON_ID)%Z ∧
              App.Source.pokemon src (App.PokemonRef.url ref) = Some data ∧
              App.Pokemon.id p = App.PokemonData.id data).
  { intros p Hp. apply (In_catalog _ _ _ _ Hl) in Hp as (ref & Hin & Hmax & Hd).
    destruct (App.Source.pokemon src (App.PokemonRef.url ref)) as [data|] eqn:Hdata;
      [|by rewrite details_failed in Hd].
    rewrite (details_fetched _ _ _ Hdata) in Hd. cbv zeta in Hd. injection Hd as <-.
    unfold App.withinMax in Hmax.
    destruct (App.encodedId (App.PokemonRef.url ref)) as [pokemonId|] eqn:He; [|done].
    apply Z.leb_le in Hmax. by exists ref, data, pokemonId. }
  split; [|split; [|split; [|split; [|split]]]].
  - rewrite (catalog_loaded _ _ _ Hl). apply sortById_sorted.
  - rewrite (catalog_loaded _ _ _ Hl). apply sortById_Permutation.
  - exact Hfrom.
  - intros ref data pokemonId Hin He Hle Hdata.
    pose proof (details_fetched (Run.generationMapAfter src order) ref data Hdata) as Hd.
    cbv zeta in Hd. eexists. split.
    { apply (In_catalog _ _ _ _ Hl). exists ref. split; [exact Hin|]. split; [|exact Hd].
      unfold App.withinMax. rewrite He. by apply Z.leb_le. }
    by cbn [App.Pokemon.id App.Pokemon.name].
  - intros url Hreq. unfold Run.requestLog in Hreq. rewrite load_run, Hl in Hreq.
    cbv zeta in Hreq. cbn [snd App.requests] in Hreq.
    apply in_app_or in Hreq as [Hreq|Hreq].
    { apply in_map_iff in Hreq as (i & [=] & _). }
    apply in_app_or in Hreq as [[[=]|[]]|Hreq].
    apply in_concat in Hreq as (reqs & Hreqs & Hreq).
    apply in_map_iff in Hreqs as (ref & <- & Href).
    apply filter_In in Href as [Hin Hmax].
    apply detailRequests_pokemon in Hreq as ->.
    unfold App.withinMax in Hmax.
    destruct (App.encodedId (App.PokemonRef.url ref)) as [pokemonId|]; [|done].
    exists ref, pokemonId. apply Z.leb_le in Hmax. done.
  - intros Hcoherent p Hp.
    destruct (Hfrom p Hp) as (ref & data & pokemonId & Hin & He & Hle & Hdata & ->).
    rewrite (Hcoherent ref data Hin Hdata) in He. injection He as ->. exact Hle.
Qed.

(** C2.  Failure semantics of ingestion, as the code has them.
    - When the reference list request fails, [fetchPokemonList] throws,
      [init] ends in its error branch and the catalog stays empty.
    - When it succeeds, [init] completes whatever else fails.  A
      reference whose detail request fails yields no record, and every
      record of the catalog comes from a reference whose detail request
      succeeded.  Every listed reference within the id bound whose detail
      request succeeds has its record in the catalog, also when its
      species or predecessor request fails: the record then keeps the
      values assigned so far (stage 1; after a failed species request no
      localized names, no flags and no color).
    - A failed generation request is absorbed: its handler changes
      nothing, every entry of the index comes from a response that
      arrived, and a species absent from the index gets generation 1. *)
Theorem ingestion_failure_semantics order savedLanguage :
  let gm := Run.generationMapAfter src order in
  let catalog := Run.catalog src order savedLanguage in
  (App.Source.pokemonList src = None →
     (∀ w, (App.fetchPokemonList src w).1 = None) ∧
     (App.load src order savedLanguage).1 = Some App.LoadError ∧
     catalog = []) ∧
  (∀ pokemonList,
     App.Source.pokemonList src = Some pokemonList →
     (App.load src order savedLanguage).1 = Some App.Ready ∧
     (∀ ref, App.Source.pokemon src (App.PokemonRef.url ref) = None →
             Run.details src gm ref = None) ∧
     (∀ p, In p catalog →
        ∃ ref data,
          In ref pokemonList ∧ App.withinMax ref = true ∧
          App.Source.pokemon src (App.PokemonRef.url ref) = Some data ∧
          App.Pokemon.id p = App.PokemonData.id data ∧
          App.Pokemon.name p = App.PokemonData.name data) ∧
     (∀ ref data,
        In ref pokemonList → App.withinMax ref = true →
        App.Source.pokemon src (App.PokemonRef.url ref) = Some data →
        ∃ p,
          In p catalog ∧
          App.Pokemon.id p = App.PokemonData.id data ∧
          App.Pokemon.name p = App.PokemonData.name data ∧
          App.Pokemon.generation p = App.generationOf gm (App.PokemonData.species_name data) ∧
          (App.Source.species src (App.PokemonData.species_url data) = None →
             App.Pokemon.evolutionStage p = 1 ∧ App.Pokemon.names p = ∅ ∧
             App.Pokemon.isBaby p = false ∧ App.Pokemon.isLegendary p = false ∧
             App.Pokemon.isMythical p = false ∧ App.Pokemon.color p = None) ∧
          (∀ speciesData prevUrl,
             App.Source.species src (App.PokemonData.species_url data) = Some speciesData →
             App.SpeciesData.evolves_from_species speciesData = Some prevUrl →
             App.Source.species src prevUrl = None →
             App.Pokemon.evolutionStage p = 1 ∧
             App.Pokemon.isBaby p = App.SpeciesData.is_baby speciesData ∧
             App.Pokemon.isLegendary p = App.SpeciesData.is_legendary speciesData ∧
             App.Pokemon.isMythical p = App.SpeciesData.is_mythical speciesData))) ∧
  (∀ i w, App.Source.generation src i = None → App.generationHandler src i w = (Some tt, w)) ∧
  (∀ name g, gm !! name = Some g →
     ∃ pokemon_species,
       App.Source.generation src g = Some pokemon_species ∧ In name pokemon_species) ∧
  (∀ name, gm !! name = None → App.generationOf gm name = 1).
Proof.
  cbv zeta. split; [|split; [|split; [|split]]].
  - intros Hl. split; [|split].
    + intros w. unfold App.fetchPokemonList. rewrite bind_run. unfold App.request at 1.
      by rewrite Hl.
    + by rewrite load_run, Hl.
    + unfold Run.catalog. by rewrite load_run, Hl.
  - intros pokemonList Hl. split; [by rewrite load_run, Hl|]. split; [|split].
    + intros ref. apply details_failed.
    + intros p Hp. apply (In_catalog _ _ _ _ Hl) in Hp as (ref & Hin & Hmax & Hd).
      destruct (App.Source.pokemon src (App.PokemonRef.url ref)) as [data|] eqn:Hdata;
        [|by rewrite details_failed in Hd].
      rewrite (details_fetched _ _ _ Hdata) in Hd. cbv zeta in Hd. injection Hd as <-.
      by exists ref, data.
    + intros ref data Hin Hmax Hdata.
      pose proof (details_fetched (Run.generationMapAfter src order) ref data Hdata) as Hd.
      cbv zeta in Hd. eexists. split.
      { apply (In_catalog _ _ _ _ Hl). exists ref. split; [exact Hin|]. split; [exact Hmax|].
        exact Hd. }
      cbn [App.Pokemon.id App.Pokemon.name App.Pokemon.generation App.Pokemon.evolutionStage
           App.Pokemon.names App.Pokemon.isBaby App.Pokemon.isLegendary App.Pokemon.isMythical
           App.Pokemon.color].
      split; [reflexivity|]. split; [reflexivity|]. split; [reflexivity|]. split.
      * intros Hs. rewrite Hs. by cbn.
      * intros sd prevUrl Hs Hprev Hnone. rewrite Hs, Hprev, Hnone. by cbn.
  - intros i w Hg. rewrite generationHandler_run, Hg. by destruct w as [[] ?].
  - intros name g Hm. by apply generationMapAfter_entries in Hm as [_ Hm].
  - intros name Hm. unfold App.generationOf. by rewrite Hm.
Qed.

End IngestionProperties.

(** ** The properties on the synthetic service *)

Lemma tri_state_round_trip_witness :
  App.currentFilters
    (App.clickGeneration (App.Num 1)
       (App.clickGeneration (App.Num 1) (App.clickGeneration (App.Num 1) Examples.loaded)))
  = App.currentFilters Examples.loaded.
Proof.
  destruct (tri_state_round_trip Examples.loaded Part000.state0) as [Hgen _].
  destruct (Hgen 1) as (_ & _ & Hthird).
  - change (1 ∉ (∅ : gset Z)). apply not_elem_of_empty.
  - change (1 ∉ (∅ : gset Z)). apply not_elem_of_empty.
  - exact Hthird.
Defined.

(** In the chain a, b, c, d the record of d, three predecessors up the
    chain, has stage 3. *)
Lemma evolution_stage_depth_witness :
  In Examples.recordD (Run.catalog Examples.chainSrc (seqZ 1 9) None) ∧
  App.Pokemon.evolutionStage Examples.recordD = 3 ∧
  (App.Pokemon.evolutionStage Examples.recordD = 1 ∨
   App.Pokemon.evolutionStage Examples.recordD = 2 ∨
   App.Pokemon.evolutionStage Examples.recordD = 3).
Proof.
  assert (Hin : In Examples.recordD (Run.catalog Examples.chainSrc (seqZ 1 9) None)).
  { vm_compute. tauto. }
  split; [exact Hin|]. split; [reflexivity|].
  destruct (evolution_stage_depth Examples.chainSrc (seqZ 1 9) None Examples.chainList
              Examples.recordD eq_refl Hin) as [Hrange _].
  exact Hrange.
Defined.

Lemma catalog_sorted_and_filtered_witness :
  StronglySorted (λ a b, (App.Pokemon.id a <= App.Pokemon.id b)%Z)
                 (Run.catalog Examples.chainSrc (seqZ 1 9) None) ∧
  (App.Pokemon.id Examples.recordD <= App.MAX_POKEMON_ID)%Z.
Proof.
  destruct (catalog_sorted_and_filtered Examples.chainSrc (seqZ 1 9) None Examples.chainList
              eq_refl) as (Hsorted & _ & _ & _ & _ & Hbound).
  split; [exact Hsorted|]. apply Hbound.
  - intros ref data Hin Hdata.
    destruct Hin as [<-|[<-|[<-|[<-|[<-|[]]]]]];
      vm_compute in Hdata; injection Hdata as <-; vm_compute; reflexivity.
  - vm_compute. tauto.
Defined.

(** The url of e encodes id 5, within the bound; the service answers its
    detail request with id 2000, and that is the id of the record in the
    catalog. *)
Lemma catalog_id_beyond_bound :
  App.encodedId (App.PokemonRef.url Examples.refE) = Some 5 ∧
  App.withinMax Examples.refE = true ∧
  Run.catalog Examples.misnumbered (seqZ 1 9) None = [Examples.recordE] ∧
  (App.MAX_POKEMON_ID < App.Pokemon.id Examples.recordE)%Z.
Proof.
  split; [vm_compute; reflexivity|]. split; [vm_compute; reflexivity|].
  split; [vm_compute; reflexivity|]. reflexivity.
Qed.

(** The species request of d fails and d is in the catalog all the same,
    with the default stage and no color. *)
Lemma species_failure_keeps_entity :
  App.Source.species Examples.speciesDown "species/d" = None ∧
  App.Source.pokemon Examples.speciesDown (App.PokemonRef.url Examples.refD)
    = Some (Examples.dataOf 4 "d" "d") ∧
  In Examples.bareD (Run.catalog Examples.speciesDown (seqZ 1 9) None).
Proof.
  split; [reflexivity|]. split; [reflexivity|]. vm_compute. tauto.
Qed.

Lemma ingestion_failure_semantics_witness :
  (App.load Examples.listDown (seqZ 1 9) None).1 = Some App.LoadError ∧
  ∃ p, In p (Run.catalog Examples.speciesDown (seqZ 1 9) None) ∧
       App.Pokemon.id p = 4 ∧ App.Pokemon.evolutionStage p = 1.
Proof.
  split.
  - destruct (ingestion_failure_semantics Examples.listDown (seqZ 1 9) None) as [Hlist _].
    destruct (Hlist eq_refl) as (_ & Herror & _). exact Herror.
  - destruct (ingestion_failure_semantics Examples.speciesDown (seqZ 1 9) None)
      as (_ & Hloaded & _).
    destruct (Hloaded Examples.chainList eq_refl) as (_ & _ & _ & Hkept).
    destruct (Hkept Examples.refD (Examples.dataOf 4 "d" "d")) as (p & Hin & Hid & _ & _ & Hdown & _).
    + by left.
    + vm_compute. reflexivity.
    + reflexivity.
    + exists p. split; [exact Hin|]. split; [exact Hid|].
      destruct (Hdown eq_refl) as [Hstage _]. exact Hstage.
Defined.

(** * Further properties of the code *)

(** ** What the listeners leave alone *)

(** Every listener leaves the catalog and the generation index as they
    are; only [init] writes them. *)
Lemma handle_allPokemon e st :
  App.allPokemon (App.handle e st) = App.allPokemon st ∧
  App.generationMap (App.handle e st) = App.generationMap st.
Proof.
  destruct e as [|value|[|v]|t| |[|v]|c|c|l|i|i| |rnd]; cbn [App.handle];
    try (split; reflexivity).
  - unfold App.clickGeneration. cbv zeta. by destruct (App.cycle _ _ _).
  - unfold App.clickType. cbv zeta.
    destruct (String.eqb t "all"); [done|]. by destruct (App.cycle _ _ _).
  - unfold App.clickTypeCount. cbv zeta. by destruct (App.typeCountState _).
  - unfold App.clickEvolution. cbv zeta. by destruct (App.cycle _ _ _).
  - unfold App.clickSpecial. cbv zeta. by destruct (App.cycle _ _ _).
  - unfold App.clickColor. cbv zeta. by destruct (App.cycle _ _ _).
  - unfold App.togglePokemon. by destruct (JS.has _ _).
  - unfold App.chooseIdentity. by destruct (bool_decide _).
  - unfold App.chooseRandomPokemon. cbv zeta. destruct (Nat.eqb _ 0); [done|].
    destruct (if (0 <=? _)%Z then _ else _); [|done].
    unfold App.chooseIdentity. by destruct (bool_decide _).
Qed.

(** X1.  The catalog is frozen once loaded: after any sequence of user
    actions [state.allPokemon] and [state.generationMap] are what they
    were. *)
Theorem catalog_frozen (es : list App.Event) (st : App.State) :
  App.allPokemon (App.run es st) = App.allPokemon st ∧
  App.generationMap (App.run es st) = App.generationMap st.
Proof.
  revert st. induction es as [|e es IH]; intros st; [done|].
  cbn [App.run fold_left]. destruct (IH (App.handle e st)) as [Ha Hg].
  destruct (handle_allPokemon e st) as [Ha' Hg'].
  unfold App.run in Ha, Hg. by rewrite Ha, Hg, Ha', Hg'.
Qed.

(** ** The displayed list *)

Lemma filter_sublist {A} (f : A → bool) (l : list A) : List.filter f l `sublist_of` l.
Proof.
  induction l as [|a l IH]; [done|]. cbn [List.filter].
  destruct (f a); [by apply sublist_skip|by apply sublist_cons].
Qed.

Lemma stage_sublist cond pred l : App.stage cond pred l `sublist_of` l.
Proof. unfold App.stage. destruct cond; [apply filter_sublist|done]. Qed.

Lemma filtered_sublist st : App.filtered st `sublist_of` App.allPokemon st.
Proof.
  unfold App.filtered. cbv zeta.
  repeat (etrans; [apply stage_sublist|]). done.
Qed.

(** [filterPokemon] reads the catalog, the filters and the language, and
    nothing else. *)
Lemma filtered_ext st1 st2 :
  App.allPokemon st1 = App.allPokemon st2 →
  App.currentFilters st1 = App.currentFilters st2 →
  App.currentLanguage st1 = App.currentLanguage st2 →
  App.filtered st1 = App.filtered st2.
Proof. intros Ha Hf Hl. unfold App.filtered. by rewrite Ha, Hf, Hl. Qed.

Lemma displayed_filterPokemon st :
  App.displayedPokemon (App.filterPokemon st) = App.filtered (App.filterPokemon st).
Proof.
  unfold App.filterPokemon at 1. cbn [App.displayedPokemon App.set_displayedPokemon].
  by apply filtered_ext.
Qed.

(** A listener either re-filters, or leaves the displayed list and
    everything the filter reads, the language excepted, as they are. *)
Lemma handle_displayed e st :
  App.displayedPokemon (App.handle e st) = App.filtered (App.handle e st) ∨
  (App.displayedPokemon (App.handle e st) = App.displayedPokemon st ∧
   App.currentFilters (App.handle e st) = App.currentFilters st ∧
   ((∀ l, e ≠ App.ClickLanguage l) →
    App.currentLanguage (App.handle e st) = App.currentLanguage st)).
Proof.
  destruct e as [|value|[|v]|t| |[|v]|c|c|l|i|i| |rnd]; cbn [App.handle].
  - left. apply displayed_filterPokemon.
  - left. apply displayed_filterPokemon.
  - left. apply displayed_filterPokemon.
  - left. unfold App.clickGeneration. cbv zeta. destruct (App.cycle _ _ _).
    apply displayed_filterPokemon.
  - left. unfold App.clickType. cbv zeta.
    destruct (String.eqb t "all"); [|destruct (App.cycle _ _ _)];
      apply displayed_filterPokemon.
  - left. apply displayed_filterPokemon.
  - left. apply displayed_filterPokemon.
  - left. unfold App.clickEvolution. cbv zeta. destruct (App.cycle _ _ _).
    apply displayed_filterPokemon.
  - left. unfold App.clickSpecial. cbv zeta. destruct (App.cycle _ _ _).
    apply displayed_filterPokemon.
  - left. unfold App.clickColor. cbv zeta. destruct (App.cycle _ _ _).
    apply displayed_filterPokemon.
  - right. split; [done|]. split; [done|]. intros Hl. by destruct (Hl l).
  - right. unfold App.togglePokemon. by destruct (JS.has _ _).
  - right. unfold App.chooseIdentity. by destruct (bool_decide _).
  - right. done.
  - right. unfold App.chooseRandomPokemon. cbv zeta. destruct (Nat.eqb _ 0); [done|].
    destruct (if (0 <=? _)%Z then _ else _); [|done].
    unfold App.chooseIdentity. by destruct (bool_decide _).
Qed.

(** X2.  Whatever the user does, the displayed list is the catalog with
    some records left out: same records, same order, none repeated or
    invented. *)
Theorem displayed_sublist_of_catalog (es : list App.Event) (st : App.State) :
  App.displayedPokemon st `sublist_of` App.allPokemon st →
  App.displayedPokemon (App.run es st) `sublist_of` App.allPokemon st.
Proof.
  revert st. induction es as [|e es IH]; intros st Hst; [exact Hst|].
  cbn [App.run fold_left]. destruct (handle_allPokemon e st) as [Ha _].
  rewrite <- Ha. apply (IH (App.handle e st)).
  destruct (handle_displayed e st) as [->|(-> & _)].
  - apply filtered_sublist.
  - by rewrite Ha.
Qed.

Lemma displayed_sublist_of_catalog_witness :
  App.displayedPokemon
    (App.run [App.ClickColor "red"; App.ClickCard 4; App.ClickTypeCount] Examples.loaded)
    `sublist_of` Examples.catalog.
Proof.
  apply (displayed_sublist_of_catalog
           [App.ClickColor "red"; App.ClickCard 4; App.ClickTypeCount] Examples.loaded).
  change (Examples.catalog `sublist_of` Examples.catalog). done.
Defined.

(** X3.  As long as the language is not switched, the displayed list is
    the filter applied to the current state: no listener that changes a
    filter forgets to re-filter, and the selection listeners do not touch
    what the filter reads.  (The language listener re-renders without
    re-filtering.) *)
Theorem displayed_is_filtered (es : list App.Event) (st : App.State) :
  Forall (λ e, ∀ l, e ≠ App.ClickLanguage l) es →
  App.displayedPokemon st = App.filtered st →
  App.displayedPokemon (App.run es st) = App.filtered (App.run es st).
Proof.
  revert st. induction es as [|e es IH]; intros st Hes Hst; [exact Hst|].
  apply Forall_cons in Hes as [He Hes].
  cbn [App.run fold_left]. apply (IH (App.handle e st) Hes).
  destruct (handle_displayed e st) as [Hd|(Hd & Hf & Hl)]; [exact Hd|].
  rewrite Hd, Hst. apply filtered_ext; [|by rewrite Hf|by rewrite Hl].
  symmetry. apply handle_allPokemon.
Qed.

Lemma displayed_is_filtered_witness :
  App.displayedPokemon
    (App.run [App.ClickColor "red"; App.ClickCard 4; App.InputName "char"] Examples.loaded)
  = App.filtered
      (App.run [App.ClickColor "red"; App.ClickCard 4; App.InputName "char"] Examples.loaded).
Proof.
  apply (displayed_is_filtered
           [App.ClickColor "red"; App.ClickCard 4; App.InputName "char"] Examples.loaded).
  - repeat constructor; discriminate.
  - change (Examples.catalog = App.filtered Examples.loaded).
    symmetry. by apply filtered_empty_filters.
Defined.

(** ** The filter as a conjunction of facet conditions *)

















(** ** The name query *)




(** ** The type-count toggle *)

(** X6.  From the initial state, after any sequence of user actions the
    type-count include set is empty, or holds exactly the one value the
    toggle shows: [single] in state [Single], [dual] in state [Dual]. *)
Theorem typeCount_follows_toggle (es : list App.Event) :
  let st := App.run es App.state0 in
  let typeCount := App.Filters.typeCount (App.currentFilters st) in
  typeCount = ∅ ∨
  (App.typeCountState st = App.Single ∧ typeCount = {["single"]}) ∨
  (App.typeCountState st = App.Dual ∧ typeCount = {["dual"]}).
Proof.
  cbv zeta.
  assert (Hinv : ∀ st,
    (App.Filters.typeCount (App.currentFilters st) = ∅ ∨
     (App.typeCountState st = App.Single ∧
      App.Filters.typeCount (App.currentFilters st) = {["single"]}) ∨
     (App.typeCountState st = App.Dual ∧
      App.Filters.typeCount (App.currentFilters st) = {["dual"]})) →
    (App.Filters.typeCount (App.currentFilters (App.run es st)) = ∅ ∨
     (App.typeCountState (App.run es st) = App.Single ∧
      App.Filters.typeCount (App.currentFilters (App.run es st)) = {["single"]}) ∨
     (App.typeCountState (App.run es st) = App.Dual ∧
      App.Filters.typeCount (App.currentFilters (App.run es st)) = {["dual"]}))).
  { induction es as [|e es IH]; intros st Hst; [exact Hst|].
    cbn [App.run fold_left]. apply (IH (App.handle e st)). clear IH.
    destruct e as [|value|[|v]|t| |[|v]|c|c|l|i|i| |rnd]; cbn [App.handle].
    - by left.
    - exact Hst.
    - exact Hst.
    - unfold App.clickGeneration. cbv zeta. by destruct (App.cycle _ _ _).
    - unfold App.clickType. cbv zeta.
      destruct (String.eqb t "all"); [exact Hst|]. by destruct (App.cycle _ _ _).
    - rewrite clickTypeCount_filters. unfold App.clickTypeCount. cbv zeta.
      destruct st as [? ? ? ? ? ? f []]; destruct f;
        cbn [App.typeCountState App.set_typeCountState App.updFilters App.filterPokemon
             App.set_currentFilters App.set_displayedPokemon App.currentFilters];
        filters_simpl.
      + right. left. split; [done|]. by rewrite union_empty_r_L.
      + right. right. split; [done|]. by rewrite union_empty_r_L.
      + by left.
    - exact Hst.
    - unfold App.clickEvolution. cbv zeta. by destruct (App.cycle _ _ _).
    - unfold App.clickSpecial. cbv zeta. by destruct (App.cycle _ _ _).
    - unfold App.clickColor. cbv zeta. by destruct (App.cycle _ _ _).
    - exact Hst.
    - unfold App.togglePokemon. by destruct (JS.has _ _).
    - unfold App.chooseIdentity. by destruct (bool_decide _).
    - exact Hst.
    - unfold App.chooseRandomPokemon. cbv zeta. destruct (Nat.eqb _ 0); [exact Hst|].
      destruct (if (0 <=? _)%Z then _ else _); [|exact Hst].
      unfold App.chooseIdentity. by destruct (bool_decide _). }
  apply Hinv. by left.
Qed.

(** X7.  [resetAllPokemon] empties the type-count set but does not
    rewind the toggle: its state is what it was, so the click that follows
    a reset selects what it would have selected without the reset. *)
Theorem reset_keeps_typeCountState (st : App.State) :
  App.typeCountState (App.resetAllPokemon st) = App.typeCountState st ∧
  App.Filters.typeCount (App.currentFilters (App.clickTypeCount (App.resetAllPokemon st)))
  = App.Filters.typeCount (App.currentFilters (App.clickTypeCount st)).
Proof.
  split; [reflexivity|]. rewrite !clickTypeCount_filters.
  change (App.typeCountState (App.resetAllPokemon st)) with (App.typeCountState st).
  reflexivity.
Qed.

(** ** Selection *)

(** X8.  Clicking a card toggles its id in the disabled set and no other
    id; two clicks on the same card restore the state. *)
Theorem togglePokemon_involutive (i : Z) (st : App.State) :
  (i ∈ App.disabledPokemon (App.togglePokemon i st) ↔ i ∉ App.disabledPokemon st) ∧
  (∀ j, j ≠ i →
     (j ∈ App.disabledPokemon (App.togglePokemon i st) ↔ j ∈ App.disabledPokemon st)) ∧
  App.togglePokemon i (App.togglePokemon i st) = st.
Proof.
  destruct st as [a d dis ch lang gm f tcs]. unfold App.togglePokemon.
  cbn [App.disabledPokemon App.set_disabledPokemon].
  destruct (JS.has dis i) eqn:Hi.
  - apply has_true in Hi. cbn [App.disabledPokemon App.set_disabledPokemon].
    assert (Hout : JS.has (dis ∖ {[i]}) i = false) by (apply has_false; set_solver).
    rewrite Hout. cbv [App.disabledPokemon App.set_disabledPokemon App.allPokemon
      App.displayedPokemon App.chosenPokemonId App.currentLanguage App.generationMap
      App.currentFilters App.typeCountState].
    split; [set_solver|]. split; [set_solver|].
    f_equal. apply set_eq. intros j. destruct (decide (j = i)); set_solver.
  - apply has_false in Hi. cbn [App.disabledPokemon App.set_disabledPokemon].
    assert (Hin : JS.has ({[i]} ∪ dis) i = true) by (apply has_true; set_solver).
    rewrite Hin. cbv [App.disabledPokemon App.set_disabledPokemon App.allPokemon
      App.displayedPokemon App.chosenPokemonId App.currentLanguage App.generationMap
      App.currentFilters App.typeCountState].
    split; [set_solver|]. split; [set_solver|].
    f_equal. set_solver.
Qed.

(** X9.  The star of a card: it chooses the card unless the card is the
    chosen one, which it un-chooses; it never touches the disabled set;
    and two clicks on the same star restore the state when no other card
    was chosen. *)
Theorem chooseIdentity_toggles (i : Z) (st : App.State) :
  (App.chosenPokemonId (App.chooseIdentity i st) = Some i ↔ App.chosenPokemonId st ≠ Some i) ∧
  (App.chosenPokemonId (App.chooseIdentity i st) = None ↔ App.chosenPokemonId st = Some i) ∧
  App.disabledPokemon (App.chooseIdentity i st) = App.disabledPokemon st ∧
  (App.chosenPokemonId st = None ∨ App.chosenPokemonId st = Some i →
   App.chooseIdentity i (App.chooseIdentity i st) = st).
Proof.
  destruct st as [a d dis ch lang gm f tcs]. unfold App.chooseIdentity.
  cbn [App.chosenPokemonId App.set_chosenPokemonId App.disabledPokemon].
  destruct (decide (ch = Some i)) as [->|Hne].
  - rewrite bool_decide_eq_true_2 by done.
    cbn [App.chosenPokemonId App.set_chosenPokemonId App.disabledPokemon].
    rewrite bool_decide_eq_false_2 by done. cbn. by intuition.
  - rewrite (bool_decide_eq_false_2 _ Hne).
    cbn [App.chosenPokemonId App.set_chosenPokemonId App.disabledPokemon].
    rewrite bool_decide_eq_true_2 by done. cbn.
    split; [done|]. split; [split; [done|by intros ->]|]. split; [done|].
    intros [-> | ->]; done.
Qed.

(** X10.  A card's star button is disabled exactly when another card is
    the chosen one; the chosen card's star and, when nothing is chosen,
    every star stay enabled. *)
Theorem star_disabled_iff_other_chosen (st : App.State) (pokemon : App.Pokemon.t) :
  App.shouldDisableStarBtn st pokemon = true ↔
    ∃ other, App.chosenPokemonId st = Some other ∧ other ≠ App.Pokemon.id pokemon.
Proof.
  unfold App.shouldDisableStarBtn, App.isChosen.
  rewrite andb_true_iff, negb_true_iff, bool_decide_eq_true, bool_decide_eq_false.
  destruct (App.chosenPokemonId st) as [other|].
  - split.
    + intros [_ Hne]. exists other. split; [done|]. congruence.
    + intros (o & [= <-] & Hne). split; [done|]. congruence.
  - split; [by intros [[] _]|by intros (o & [=] & _)].
Qed.

(** X11.  The remaining counter is at most the number of displayed cards,
    and it shows 0 exactly when the random button does nothing
    ([Math.random()] being in its range). *)
Theorem remainingCount_zero_iff_random_noop (rnd : Q) (st : App.State) :
  (0 <= rnd)%Q → (rnd < 1)%Q →
  (App.remainingCount st <= length (App.displayedPokemon st))%nat ∧
  (App.remainingCount st = 0%nat ↔ App.chooseRandomPokemon rnd st = st).
Proof.
  intros Hlo Hhi. unfold App.remainingCount. split; [apply filter_length_le|].
  unfold App.chooseRandomPokemon. cbv zeta.
  set (availablePokemon := List.filter _ _).
  destruct (Nat.eqb_spec (length availablePokemon) 0) as [Hz|Hnz]; [done|].
  split; [done|]. intros Hsame. exfalso.
  destruct (randomIndex_range rnd (length availablePokemon) Hlo Hhi) as [H0 Hn]; [lia|].
  apply Z.leb_le in H0. rewrite H0 in Hsame.
  destruct (lookup_lt_is_Some_2 availablePokemon
              (Z.to_nat (App.randomIndex rnd (length availablePokemon)))) as [p Hp]; [lia|].
  rewrite Hp in Hsame.
  apply (f_equal App.chosenPokemonId) in Hsame.
  unfold App.chooseIdentity in Hsame.
  destruct (bool_decide_reflect (App.chosenPokemonId st = Some (App.Pokemon.id p)))
    as [Hc|Hc]; cbn [App.chosenPokemonId App.set_chosenPokemonId] in Hsame; congruence.
Qed.

Lemma remainingCount_zero_iff_random_noop_witness :
  (App.remainingCount Examples.oneLeft <= length (App.displayedPokemon Examples.oneLeft))%nat ∧
  (App.remainingCount Examples.oneLeft = 0%nat
   ↔ App.chooseRandomPokemon (1 # 2) Examples.oneLeft = Examples.oneLeft).
Proof.
  apply (remainingCount_zero_iff_random_noop (1 # 2) Examples.oneLeft);
    [discriminate|reflexivity].
Defined.

(** ** Batches, sort and the locals of a record *)

Lemma createBatches_lookup {A} (l : list A) fuel i k :
  (length l - i <= fuel)%nat →
  App.createBatches fuel i l !! k =
    if Nat.ltb (i + App.BATCH_SIZE * k) (length l)
    then Some (take App.BATCH_SIZE (drop (i + App.BATCH_SIZE * k) l))
    else None.
Proof.
  revert i k. induction fuel as [|fuel IH]; intros i k Hfuel; cbn [App.createBatches].
  - destruct (Nat.ltb_spec (i + App.BATCH_SIZE * k) (length l)); [lia|done].
  - destruct (Nat.ltb_spec i (length l)) as [Hlt|Hge].
    + destruct k as [|k].
      * rewrite Nat.mul_0_r, Nat.add_0_r. apply Nat.ltb_lt in Hlt as ->.
        cbn [lookup list_lookup]. unfold App.slice.
        by replace (i + App.BATCH_SIZE - i)%nat with App.BATCH_SIZE by lia.
      * cbn [lookup list_lookup]. change (?l !! k) with (l !! k).
        rewrite IH by (unfold App.BATCH_SIZE; lia).
        by replace (i + App.BATCH_SIZE + App.BATCH_SIZE * k)%nat
          with (i + App.BATCH_SIZE * S k)%nat by lia.
    + destruct (Nat.ltb_spec (i + App.BATCH_SIZE * k) (length l)); [lia|done].
Qed.

(** X12.  The batches of [fetchPokemonDetailsBatch] cut the filtered list
    into consecutive runs of [BATCH_SIZE] references: batch [k] exists
    when [BATCH_SIZE * k] is below the length and is the slice from there,
    of at most [BATCH_SIZE] and at least one reference; together the
    batches are the list. *)
Theorem batches_partition {A} (filteredList : list A) :
  let batches := App.createBatches (length filteredList) 0 filteredList in
  concat batches = filteredList ∧
  (∀ k, batches !! k =
          if Nat.ltb (App.BATCH_SIZE * k) (length filteredList)
          then Some (App.slice (App.BATCH_SIZE * k) (App.BATCH_SIZE * k + App.BATCH_SIZE)
                               filteredList)
          else None) ∧
  (∀ batch, In batch batches → (0 < length batch <= App.BATCH_SIZE)%nat).
Proof.
  cbv zeta. split; [|split].
  - rewrite createBatches_concat by lia. apply drop_0.
  - intros k. rewrite createBatches_lookup by lia. cbn [Nat.add]. unfold App.slice.
    by replace (App.BATCH_SIZE * k + App.BATCH_SIZE - App.BATCH_SIZE * k)%nat
      with App.BATCH_SIZE by lia.
  - intros batch. apply createBatches_length.
Qed.

Lemma filter_insertById (f : App.Pokemon.t → bool) p l :
  (∀ q, f q = true → f p = true → App.Pokemon.id q = App.Pokemon.id p) →
  List.filter f (App.insertById p l) = List.filter f (p :: l).
Proof.
  intros Hsame. induction l as [|q l IH]; cbn [App.insertById]; [done|].
  destruct (Z.leb_spec (App.Pokemon.id p) (App.Pokemon.id q)) as [Hle|Hgt]; [done|].
  cbn [List.filter] in *. rewrite IH.
  destruct (f q) eqn:Hq; destruct (f p) eqn:Hp; try done.
  specialize (Hsame q Hq eq_refl). lia.
Qed.

(** X13.  The sort of [init] is stable and loses nothing: the records
    with a given id come out in the order they went in, and the sorted
    catalog is a permutation of the unsorted one. *)
Theorem sortById_stable (l : list App.Pokemon.t) (i : Z) :
  List.filter (λ p, (App.Pokemon.id p =? i)%Z) (App.sortById l)
  = List.filter (λ p, (App.Pokemon.id p =? i)%Z) l ∧
  Permutation (App.sortById l) l.
Proof.
  split; [|apply sortById_Permutation].
  unfold App.sortById. induction l as [|p l IH]; [done|].
  cbn [fold_right]. rewrite filter_insertById.
  - cbn [List.filter]. by rewrite IH.
  - intros q Hq Hp. apply Z.eqb_eq in Hq, Hp. congruence.
Qed.




(** ** More on ingestion *)

Section IngestionExtras.

Context (src : App.Source.t).

(** The requests of one reference: its detail, then at most two species. *)
Lemma detailRequests_shape ref :
  ∃ species,
    Run.detailRequests src ref = App.GetPokemon (App.PokemonRef.url ref) :: map App.GetSpecies species ∧
    (length species <= 2)%nat ∧
    (App.Source.pokemon src (App.PokemonRef.url ref) = None → species = []).
Proof.
  unfold Run.detailRequests, App.fetchPokemonDetails, App.speciesBlock, App.tryCatch.
  rewrite bind_run. unfold App.request at 1.
  destruct (App.Source.pokemon src (App.PokemonRef.url ref)) as [data|];
    [|exists []; cbn; split; [done|split; [lia|done]]].
  rewrite bind_run, bind_run. unfold App.request at 1.
  destruct (App.Source.species src (App.PokemonData.species_url data)) as [sd|];
    [|exists [App.PokemonData.species_url data]; cbn; split; [done|split; [lia|done]]].
  destruct (App.SpeciesData.evolves_from_species sd) as [prevUrl|];
    [|exists [App.PokemonData.species_url data]; cbn; split; [done|split; [lia|done]]].
  rewrite bind_run. unfold App.request at 1.
  exists [App.PokemonData.species_url data; prevUrl].
  destruct (App.Source.species src prevUrl) as [psd|];
    [destruct (App.SpeciesData.evolves_from_species psd)|];
    cbn; (split; [done|split; [lia|done]]).
Qed.

(** X16.  [fetchPokemonDetails] never throws and never writes [state]: it
    resolves to a record or to [null], [null] exactly when the detail
    request fails, after one detail request and at most two species
    requests. *)
Theorem fetchPokemonDetails_total (ref : App.PokemonRef.t) (w : App.World) :
  ∃ result species,
    App.fetchPokemonDetails src ref w =
      (Some result,
       App.mkWorld (App.state w)
         (App.requests w ++ App.GetPokemon (App.PokemonRef.url ref) :: map App.GetSpecies species)) ∧
    (length species <= 2)%nat ∧
    (result = None ↔ App.Source.pokemon src (App.PokemonRef.url ref) = None).
Proof.
  destruct (detailRequests_shape ref) as (species & Hreqs & Hlen & _).
  exists (Run.details src (App.generationMap (App.state w)) ref), species.
  rewrite fetchPokemonDetails_run, Hreqs. split; [done|]. split; [done|].
  destruct (App.Source.pokemon src (App.PokemonRef.url ref)) as [data|] eqn:Hp.
  - rewrite (details_fetched _ _ _ _ Hp). cbv zeta. split; discriminate.
  - by rewrite details_failed.
Qed.

(** X17.  [state] once [init] has settled.  In both outcomes the filters
    are empty, nothing is disabled or chosen and the displayed list is the
    catalog; the saved language is read only when the load succeeds, an
    empty or missing one giving ['en']. *)
Theorem init_final_state (order : list Z) (savedLanguage : option string) :
  let st := App.state (App.load src order savedLanguage).2 in
  App.currentFilters st = App.Filters.empty ∧
  App.disabledPokemon st = ∅ ∧
  App.chosenPokemonId st = None ∧
  App.displayedPokemon st = App.allPokemon st ∧
  App.generationMap st = Run.generationMapAfter src order ∧
  App.currentLanguage st =
    match App.Source.pokemonList src, savedLanguage with
    | Some _, Some lang => if JS.truthyStr lang then lang else "en"
    | _, _ => "en"
    end.
Proof.
  cbv zeta. rewrite load_run. cbv zeta.
  destruct (App.Source.pokemonList src) as [pokemonList|]; [|done].
  cbn [snd App.state App.currentFilters App.disabledPokemon App.chosenPokemonId
       App.displayedPokemon App.allPokemon App.generationMap App.currentLanguage].
  repeat (split; [reflexivity|]).
  destruct savedLanguage as [lang|]; [|done]. cbn. by destruct (JS.truthyStr lang).
Qed.


Lemma omap_length_le {A B} (f : A → option B) (l : list A) :
  (length (omap f l) <= length l)%nat.
Proof.
  induction l as [|a l IH]; [done|]. cbn [omap list_omap].
  destruct (f a); cbn [length]; lia.
Qed.

(** X19.  The catalog has one record for each listed reference within
    the id bound whose detail request succeeds, duplicates in the list
    included; so it has at most as many records as the list has
    references. *)
Theorem catalog_length (order : list Z) (savedLanguage : option string)
    (pokemonList : list App.PokemonRef.t) :
  App.Source.pokemonList src = Some pokemonList →
  length (Run.catalog src order savedLanguage) =
    length (List.filter
              (λ ref, match App.Source.pokemon src (App.PokemonRef.url ref) with
                      | Some _ => true
                      | None => false
                      end)
              (List.filter App.withinMax pokemonList)) ∧
  (length (Run.catalog src order savedLanguage) <= length pokemonList)%nat.
Proof.
  intros Hl. rewrite (catalog_loaded _ _ _ _ Hl).
  rewrite (Permutation_length (sortById_Permutation _)). split.
  - induction (List.filter App.withinMax pokemonList) as [|ref l IH]; [done|].
    cbn [map omap list_omap List.filter].
    destruct (App.Source.pokemon src (App.PokemonRef.url ref)) as [data|] eqn:Hp.
    + rewrite (details_fetched _ _ _ _ Hp). cbv zeta. cbn [id length]. by rewrite <- IH.
    + rewrite (details_failed _ _ _ Hp). cbn [id]. exact IH.
  - etrans; [apply omap_length_le|]. rewrite length_map. apply filter_length_le.
Qed.

(** *** The generation index and the arrival order *)

Lemma insertAll_lookup (i : Z) (species : list string) (m : gmap string Z) name :
  In name species ∨ m !! name = Some i →
  fold_left (λ (m : gmap string Z) sp, <[sp := i]> m) species m !! name = Some i.
Proof.
  revert m. induction species as [|sp species IH]; intros m; cbn [fold_left].
  - by intros [[]|Hm].
  - intros [[->|Hin]|Hm]; apply IH.
    + right. apply lookup_insert_eq.
    + by left.
    + right. destruct (decide (sp = name)) as [->|Hne];
        [apply lookup_insert_eq|by rewrite lookup_insert_ne].
Qed.

Lemma insertAll_present (i : Z) (species : list string) (m : gmap string Z) name :
  is_Some (m !! name) →
  is_Some (fold_left (λ (m : gmap string Z) sp, <[sp := i]> m) species m !! name).
Proof.
  revert m. induction species as [|sp species IH]; intros m; cbn [fold_left]; [done|].
  intros Hm. apply IH. destruct (decide (sp = name)) as [->|Hne].
  - rewrite lookup_insert_eq. by eexists.
  - by rewrite lookup_insert_ne.
Qed.

Lemma generationMapAfter_present order name g species :
  In g order → App.Source.generation src g = Some species → In name species →
  is_Some (Run.generationMapAfter src order !! name).
Proof.
  rewrite generationMapAfter_fold. intros Hg Hs Hn.
  assert (Hkeep : ∀ order (m : gmap string Z),
            is_Some (m !! name) →
            is_Some (fold_left
                       (λ (m : gmap string Z) i,
                          match App.Source.generation src i with
                          | Some pokemon_species =>
                              fold_left (λ (m : gmap string Z) sp, <[sp := i]> m)
                                        pokemon_species m
                          | None => m
                          end) order m !! name)).
  { clear. intros order. induction order as [|i order IH]; intros m Hm; cbn [fold_left]; [done|].
    apply IH. destruct (App.Source.generation src i); [by apply insertAll_present|done]. }
  generalize (∅ : gmap string Z) as m.
  induction order as [|i order IH]; intros m; [destruct Hg|].
  cbn [fold_left]. destruct Hg as [->|Hg]; [|by apply IH].
  apply Hkeep. rewrite Hs. rewrite insertAll_lookup by (by left). by eexists.
Qed.


(** X21.  When no species is listed by two generations, the index does
    not depend on the order in which the responses arrive: a species is
    mapped to the generation that lists it, among those requested. *)
Theorem generation_index_order_independent (order : list Z) (name : string) (g : Z) :
  (∀ i j si sj n,
     App.Source.generation src i = Some si → App.Source.generation src j = Some sj →
     In n si → In n sj → i = j) →
  Run.generationMapAfter src order !! name = Some g ↔
    In g order ∧ ∃ species, App.Source.generation src g = Some species ∧ In name species.
Proof.
  intros Hdisjoint. split; [apply generationMapAfter_entries|].
  intros (Hg & species & Hs & Hn).
  destruct (generationMapAfter_present order name g species Hg Hs Hn) as [g' Hg'].
  rewrite Hg'. f_equal.
  apply generationMapAfter_entries in Hg' as (_ & species' & Hs' & Hn').
  exact (Hdisjoint g' g species' species name Hs' Hs Hn' Hn).
Qed.


End IngestionExtras.

Lemma catalog_length_witness :
  length (Run.catalog Examples.chainSrc (seqZ 1 9) None) =
    length (List.filter
              (λ ref, match App.Source.pokemon Examples.chainSrc (App.PokemonRef.url ref) with
                      | Some _ => true
                      | None => false
                      end)
              (List.filter App.withinMax Examples.chainList)) ∧
  (length (Run.catalog Examples.chainSrc (seqZ 1 9) None) <= length Examples.chainList)%nat.
Proof.
  exact (catalog_length Examples.chainSrc (seqZ 1 9) None Examples.chainList eq_refl).
Defined.


Lemma generation_index_order_independent_witness :
  Run.generationMapAfter Examples.twoGenerations [2; 1] !! "c" = Some 2.
Proof.
  apply (generation_index_order_independent Examples.twoGenerations [2; 1] "c" 2).
  - intros i j si sj n Hi Hj Hsi Hsj. cbn in Hi, Hj.
    destruct (Z.eqb_spec i 1) as [->|Hi1]; [|destruct (Z.eqb_spec i 2) as [->|Hi2]];
      (destruct (Z.eqb_spec j 1) as [->|Hj1]; [|destruct (Z.eqb_spec j 2) as [->|Hj2]]);
      simplify_eq; try reflexivity; cbn in Hsi, Hsj; exfalso;
      intuition congruence.
  - split; [by left|]. exists ["c"; "d"]. split; [reflexivity|by left].
Defined.


(** ** The generation sets of the earlier revision *)

Ltac part_state_simpl :=
  cbv [Part000.updFilters Part000.set_currentFilters Part000.currentFilters
       Part000.filterPokemon Part000.set_displayedPokemon Part000.set_disabledPokemon
       Part000.set_chosenPokemonId
       Part000.Filters.generations Part000.Filters.notGenerations
       Part000.Filters.generationMode Part000.Filters.types Part000.Filters.notTypes
       Part000.Filters.typeMode Part000.Filters.name
       Part000.Filters.set_generations Part000.Filters.set_notGenerations
       Part000.Filters.set_generationMode Part000.Filters.set_types
       Part000.Filters.set_notTypes Part000.Filters.set_typeMode Part000.Filters.set_name
       Part000.OrdSet.clear Part000.OrdSet.size Part000.OrdSet.first].

Lemma OrdSet_add_NoDup x s : NoDup s → NoDup (Part000.OrdSet.add x s).
Proof.
  intros Hs. unfold Part000.OrdSet.add. destruct (Part000.OrdSet.has s x) eqn:Hx; [done|].
  apply OrdSet_has_false in Hx. apply NoDup_app. split; [done|].
  split; [|apply NoDup_singleton]. intros y Hy ->%list_elem_of_singleton. done.
Qed.

Lemma OrdSet_delete_NoDup x s : NoDup s → NoDup (Part000.OrdSet.delete x s).
Proof.
  intros Hs. unfold Part000.OrdSet.delete. induction Hs as [|y s Hy Hs IH]; cbn [List.filter].
  - constructor.
  - destruct (negb (y =? x)%Z); [|done]. constructor; [|done].
    intros Hin. apply Hy. apply list_elem_of_In, filter_In in Hin as [Hin _].
    by apply list_elem_of_In.
Qed.

(** The four conditions when each set is empty or a singleton and one of
    them is empty. *)
Ltac small_sets :=
  split_and!;
  [ first [apply NoDup_nil_2|apply NoDup_singleton]
  | first [apply NoDup_nil_2|apply NoDup_singleton]
  | let z := fresh "z" in let Hz := fresh "Hz" in
    intros z Hz; first [by apply not_elem_of_nil|by apply not_elem_of_nil in Hz]
  | intros _; cbn [length]; lia ].

Lemma OrdSet_delete_clear x : Part000.OrdSet.delete x [] = [].
Proof. reflexivity. Qed.

(** One listener keeps the two generation sets duplicate-free and
    disjoint, with at most one value between them in single mode. *)
Lemma handle_generation_sets e st :
  let f := Part000.currentFilters st in
  let f' := Part000.currentFilters (Part000.handle e st) in
  NoDup (Part000.Filters.generations f) ∧
  NoDup (Part000.Filters.notGenerations f) ∧
  (∀ g, g ∈ Part000.Filters.generations f → g ∉ Part000.Filters.notGenerations f) ∧
  (Part000.Filters.generationMode f = Part000.single →
   (length (Part000.Filters.generations f)
    + length (Part000.Filters.notGenerations f) <= 1)%nat) →
  NoDup (Part000.Filters.generations f') ∧
  NoDup (Part000.Filters.notGenerations f') ∧
  (∀ g, g ∈ Part000.Filters.generations f' → g ∉ Part000.Filters.notGenerations f') ∧
  (Part000.Filters.generationMode f' = Part000.single →
   (length (Part000.Filters.generations f')
    + length (Part000.Filters.notGenerations f') <= 1)%nat).
Proof.
  cbv zeta. destruct st as [a d dis ch gm [g ng m t nt tm nm]].
  part_state_simpl. intros (Hg & Hng & Hdis & Hone).
  assert (Hnil : NoDup (@nil Z)) by constructor.
  assert (Hemp : ∀ x : Z, x ∈ @nil Z → x ∉ @nil Z) by (intros x Hx; by apply not_elem_of_nil).
  destruct e as [|value| | |[|v]|ty]; cbn [Part000.handle].
  - unfold Part000.resetAllPokemon. part_state_simpl. split_and!; first [done|intros _; cbn [length]; lia].
  - unfold Part000.inputName. part_state_simpl. split_and!; first [done|intros _; cbn [length]; lia].
  - unfold Part000.genModeToggle. part_state_simpl. destruct m.
    + part_state_simpl. split_and!; first [done|intros _; cbn [length]; lia].
    + destruct (Nat.ltb_spec 1 (length g + length ng)) as [Hmany|Hfew].
      * destruct (JS.truthyOpt (head g)) as [x|]; [|destruct (JS.truthyOpt (head ng)) as [y|]];
          part_state_simpl; rewrite ?OrdSet_add_clear;
          small_sets.
      * part_state_simpl. split_and!; first [done|intros _; cbn [length]; lia].
  - unfold Part000.typeModeToggle. part_state_simpl. destruct tm; part_state_simpl; split_and!; first [done|intros _; cbn [length]; lia].
  - unfold Part000.clickGeneration. part_state_simpl. split_and!; first [done|intros _; cbn [length]; lia].
  - unfold Part000.clickGeneration. part_state_simpl.
    destruct (Part000.OrdSet.has g v) eqn:Hvg; destruct (Part000.OrdSet.has ng v) eqn:Hvn;
      destruct m; cbv [Part000.cycleGen negb andb]; part_state_simpl;
      rewrite ?OrdSet_add_clear, ?OrdSet_delete_clear;
      try small_sets.
    + exfalso. apply OrdSet_has_true in Hvg, Hvn. by apply (Hdis v).
    + split_and!; [by apply OrdSet_delete_NoDup|by apply OrdSet_add_NoDup| |done].
      intros z Hz. apply OrdSet_elem_of_delete in Hz as [Hne Hz].
      rewrite OrdSet_elem_of_add. intros [->|Hzn]; [done|]. by apply (Hdis z).
    + split_and!; [done|by apply OrdSet_delete_NoDup| |done].
      intros z Hz. rewrite OrdSet_elem_of_delete. intros [_ Hzn]. by apply (Hdis z).
    + apply OrdSet_has_false in Hvn.
      split_and!; [by apply OrdSet_add_NoDup|done| |done].
      intros z Hz. apply OrdSet_elem_of_add in Hz as [->|Hz]; [done|]. by apply Hdis.
  - unfold Part000.clickType. part_state_simpl.
    destruct (String.eqb ty "all"); [|destruct (App.cycle _ _ _)];
      part_state_simpl; split_and!; first [done|intros _; cbn [length]; lia].
Qed.

(** X23.  In the earlier revision, from the initial state and after any
    sequence of user actions (generation and type clicks, the two mode
    switches, name input, reset): no generation is both included and
    excluded, neither generation set holds a value twice, and in single
    mode at most one generation is selected, included and excluded ones
    counted together. *)
Theorem single_mode_one_selection (es : list Part000.Event) :
  let f := Part000.currentFilters (Part000.run es Part000.state0) in
  NoDup (Part000.Filters.generations f) ∧
  NoDup (Part000.Filters.notGenerations f) ∧
  (∀ g, g ∈ Part000.Filters.generations f → g ∉ Part000.Filters.notGenerations f) ∧
  (Part000.Filters.generationMode f = Part000.single →
   (length (Part000.Filters.generations f)
    + length (Part000.Filters.notGenerations f) <= 1)%nat).
Proof.
  cbv zeta.
  assert (Hinv : ∀ st,
    (NoDup (Part000.Filters.generations (Part000.currentFilters st)) ∧
     NoDup (Part000.Filters.notGenerations (Part000.currentFilters st)) ∧
     (∀ g, g ∈ Part000.Filters.generations (Part000.currentFilters st) →
           g ∉ Part000.Filters.notGenerations (Part000.currentFilters st)) ∧
     (Part000.Filters.generationMode (Part000.currentFilters st) = Part000.single →
      (length (Part000.Filters.generations (Part000.currentFilters st))
       + length (Part000.Filters.notGenerations (Part000.currentFilters st)) <= 1)%nat)) →
    (NoDup (Part000.Filters.generations (Part000.currentFilters (Part000.run es st))) ∧
     NoDup (Part000.Filters.notGenerations (Part000.currentFilters (Part000.run es st))) ∧
     (∀ g, g ∈ Part000.Filters.generations (Part000.currentFilters (Part000.run es st)) →
           g ∉ Part000.Filters.notGenerations (Part000.currentFilters (Part000.run es st))) ∧
     (Part000.Filters.generationMode (Part000.currentFilters (Part000.run es st))
        = Part000.single →
      (length (Part000.Filters.generations (Part000.currentFilters (Part000.run es st)))
       + length (Part000.Filters.notGenerations (Part000.currentFilters (Part000.run es st)))
       <= 1)%nat))).
  { induction es as [|e es IH]; intros st Hst; [exact Hst|].
    apply (IH (Part000.handle e st)), (handle_generation_sets e st), Hst. }
  apply Hinv. change (Part000.currentFilters Part000.state0) with Part000.Filters.empty.
  cbv [Part000.Filters.empty Part000.Filters.generations Part000.Filters.notGenerations
       Part000.Filters.generationMode].
  small_sets.
Qed.
